(** * Kino: a logging facade with Sentry forwarding

    A shallow embedding of [src/Kino.ts] and [src/constants.ts].

    The class [Kino] keeps two static fields ([instance], [locale]),
    which a class that extends [Kino] inherits and can shadow, and talks
    to four collaborators: the console, the process event emitter, the
    clock and the Sentry SDK.  All of this is gathered in one record,
    [World], and every method is a function [World -> World * Outcome _]:
    the world after the call, and either the returned value or the
    exception thrown. *)

From Stdlib Require Import ZArith QArith_base String Ascii List.
From stdpp Require Import base option gmap strings list.

Local Open Scope string_scope.
Local Open Scope list_scope.
#[local] Set Warnings "-register-all".

(** ** JavaScript values *)

(** The integrations of [@sentry/node] that [Kino.init] can install. *)
Inductive Integration : Type :=
| functionToStringIntegration
| linkedErrorsIntegration
| consoleIntegration (levels : list string)
| nativeNodeFetchIntegration
| httpIntegration
| contextLinesIntegration
| childProcessIntegration
| modulesIntegration
| onUncaughtExceptionIntegration
| onUnhandledRejectionIntegration
| anrIntegration (captureStackTrace : bool)
| knexIntegration
| mysql2Integration.

(** The values of type [any] that reach the logger. *)
Inductive jsval : Type :=
| JUndefined
| JNull
| JBool (b : bool)
| JNum (q : Q)
| JStr (s : string)
| JArr (items : list jsval)
| JObj (fields : list (string * jsval))
| JError (name message : string)
| JIntegration (i : Integration).

(** [typeof v] *)
Definition typeof (v : jsval) : string :=
  match v with
  | JUndefined => "undefined"
  | JBool _ => "boolean"
  | JNum _ => "number"
  | JStr _ => "string"
  | JNull | JArr _ | JObj _ | JError _ _ | JIntegration _ => "object"
  end.

(** [!!v] *)
Definition truthy (v : jsval) : bool :=
  match v with
  | JUndefined | JNull => false
  | JBool b => b
  | JNum q => negb (Qeq_bool q (0 # 1))
  | JStr s => negb (String.eqb s "")
  | JArr _ | JObj _ | JError _ _ | JIntegration _ => true
  end.

(** [a ?? b] *)
Definition nullish (a b : jsval) : jsval :=
  match a with
  | JUndefined | JNull => b
  | _ => a
  end.

(** A plain object used as a record of options: [o.k] is [undefined]
    when [k] is not a property of [o]. *)
Definition prop (o : gmap string jsval) (k : string) : jsval :=
  default JUndefined (o !! k).

(** [{ ...target, ...source }]: the properties of [source] win. *)
Definition spread {V : Type} (target source : gmap string V) : gmap string V :=
  source ∪ target.

(** ** Exceptions and outcomes *)

Inductive Exception : Type :=
| Error_ (message : string)        (* new Error(message) *)
| TypeError_ (message : string)    (* raised by the runtime *)
| RangeError_ (message : string).  (* raised by the date formatter *)

Inductive Outcome (A : Type) : Type :=
| Return (a : A)
| Throw (e : Exception).
Arguments Return {A} a.
Arguments Throw {A} e.

(** ** constants.ts *)

(** [keyof typeof LEVELS] *)
Inductive LevelKey : Type := Klog | Kinfo | Ksuccess | Kwarn | Kerror | Kdebug.

Definition LEVELS (type : LevelKey) : string :=
  match type with
  | Klog => "LOG"
  | Kinfo => "INFO"
  | Ksuccess => "SUCCESS"
  | Kwarn => "WARN"
  | Kerror => "ERROR"
  | Kdebug => "DEBUG"
  end.

(** The styles of [chalk] that [COLORS] uses. *)
Inductive Chalk : Type := cyan | white | green | yellow | red | blueBright.

Definition COLORS (type : LevelKey) : Chalk :=
  match type with
  | Klog => cyan
  | Kinfo => white
  | Ksuccess => green
  | Kwarn => yellow
  | Kerror => red
  | Kdebug => blueBright
  end.

(** ** Types of Kino.ts *)

Record KinoInitOptions : Type := {
  sentry : option (gmap string jsval);      (* Sentry.NodeOptions *)
  packages : option (list string);
  ANR : option bool;
  defaultIntanceTitle : option string;
  locale : option string;
  autoCaptureUnhandledRejections : option bool
}.

Record User : Type := { id : string; username : string }.

Record SentryCaptureContext : Type := {
  tags : option (gmap string string);
  extras : option (gmap string jsval);
  user : option User
}.

(** An instance of the class: its only field is [module]. *)
Record Kino : Type := new_Kino { module : string }.

(** ** The classes static methods are called on *)

(** The receiver [this] of a static method: [Kino] itself or a class
    that extends it, directly or not.  [id] tells apart two classes
    declared with the same name. *)
Inductive Receiver : Type :=
| Kino_itself
| Subclass (id : positive) (name : string) (super : Receiver).

Fixpoint receiver_chain (c : Receiver) : list (positive * string) :=
  match c with
  | Kino_itself => []
  | Subclass i n super => (i, n) :: receiver_chain super
  end.

Fixpoint chain_receiver (l : list (positive * string)) : Receiver :=
  match l with
  | [] => Kino_itself
  | (i, n) :: l' => Subclass i n (chain_receiver l')
  end.

Lemma chain_receiver_chain (c : Receiver) :
  chain_receiver (receiver_chain c) = c.
Proof. induction c as [|i n super IH]; cbn; [reflexivity | by rewrite IH]. Qed.

#[global] Instance Receiver_eq_dec : EqDecision Receiver.
Proof. solve_decision. Defined.

#[global] Instance Receiver_countable : Countable Receiver :=
  inj_countable' receiver_chain chain_receiver chain_receiver_chain.

(** ** The world *)

Inductive Writer : Type :=
| console_error | console_warn | console_info | console_debug | console_log.

(** One call [writer(prefix, text)]. *)
Record Line : Type := {
  line_writer : Writer;
  line_prefix : string;
  line_text : string
}.

(** The two listeners [Kino.init] registers; both have the body
    [Kino.error(x)], the second one is an [async] function. *)
Inductive Listener : Type :=
| unhandledRejection_listener
| uncaughtException_listener.

Record World : Type := {
  Kino_instance : option Kino;     (* the own property [Kino.instance] *)
  Kino_locale : string;            (* the own property [Kino.locale] *)
  Sub_instance : gmap Receiver Kino;
                     (* the own [instance] of the classes extending Kino *)
  Sub_locale : gmap Receiver string;
                     (* the own [locale] of the classes extending Kino *)
  clock : Z;                                (* what [new Date()] reads *)
  console : list Line;                      (* writer calls, oldest first *)
  process_listeners : list (string * Listener);   (* process.on *)
  Sentry_inits : list (gmap string jsval);
                     (* the arguments of the calls of Sentry.init *)
  Sentry_client : option (gmap string jsval);     (* Sentry.getClient() *)
  Sentry_captured : list (jsval * SentryCaptureContext)
                                            (* Sentry.captureException *)
}.

(** The process at start-up: [Kino.locale] is initialised to ['en-US']
    by the class body, everything else is empty. *)
Definition boot (t : Z) : World :=
  {| Kino_instance := None; Kino_locale := "en-US";
     Sub_instance := ∅; Sub_locale := ∅; clock := t;
     console := []; process_listeners := []; Sentry_inits := [];
     Sentry_client := None; Sentry_captured := [] |}.

(** ** The monad of methods

    A computation takes the world and gives the world it leaves behind
    with its outcome.  A [Throw] keeps the effects made before it, as an
    exception does. *)

Definition M (A : Type) : Type := World -> World * Outcome A.

Definition throw {A : Type} (e : Exception) : M A := fun w => (w, Throw e).

#[global] Instance M_ret : MRet M := fun A a w => (w, Return a).

#[global] Instance M_bind : MBind M := fun A B k m w =>
  match m w with
  | (w', Return a) => k a w'
  | (w', Throw e) => (w', Throw e)
  end.

(** [for (const x of xs) body(x)] *)
Fixpoint for_of {A : Type} (xs : list A) (body : A -> M unit) : M unit :=
  match xs with
  | [] => mret tt
  | x :: xs' => body x;; for_of xs' body
  end.

(** The world after a computation, and its outcome. *)
Definition after {A : Type} (m : M A) (w : World) : World := fst (m w).
Definition outcome {A : Type} (m : M A) (w : World) : Outcome A := snd (m w).

(** *** Reading and writing the world *)

(** [this.instance]: the own property of [this], or else that of the
    nearest superclass that has one; static properties are inherited
    through the prototype chain of the constructors. *)
Fixpoint read_instance (this : Receiver) (w : World) : option Kino :=
  match this with
  | Kino_itself => Kino_instance w
  | Subclass _ _ super =>
      match Sub_instance w !! this with
      | Some k => Some k
      | None => read_instance super w
      end
  end.

(** [this.locale] *)
Fixpoint read_locale (this : Receiver) (w : World) : string :=
  match this with
  | Kino_itself => Kino_locale w
  | Subclass _ _ super =>
      match Sub_locale w !! this with
      | Some l => l
      | None => read_locale super w
      end
  end.

(** [Kino.instance] *)
Definition get_instance : M (option Kino) := fun w => (w, Return (Kino_instance w)).

(** [this.instance] *)
Definition this_instance (this : Receiver) : M (option Kino) :=
  fun w => (w, Return (read_instance this w)).

(** [this.instance = k]: an own property of [this]. *)
Definition set_instance (this : Receiver) (k : Kino) : M unit := fun w =>
  ({| Kino_instance :=
        match this with Kino_itself => Some k | _ => Kino_instance w end;
      Kino_locale := Kino_locale w;
      Sub_instance :=
        match this with
        | Kino_itself => Sub_instance w
        | _ => <[ this := k ]> (Sub_instance w)
        end;
      Sub_locale := Sub_locale w; clock := clock w;
      console := console w; process_listeners := process_listeners w;
      Sentry_inits := Sentry_inits w; Sentry_client := Sentry_client w;
      Sentry_captured := Sentry_captured w |}, Return tt).

(** [this.locale = l]: an own property of [this]. *)
Definition set_locale (this : Receiver) (l : string) : M unit := fun w =>
  ({| Kino_instance := Kino_instance w;
      Kino_locale :=
        match this with Kino_itself => l | _ => Kino_locale w end;
      Sub_instance := Sub_instance w;
      Sub_locale :=
        match this with
        | Kino_itself => Sub_locale w
        | _ => <[ this := l ]> (Sub_locale w)
        end;
      clock := clock w;
      console := console w; process_listeners := process_listeners w;
      Sentry_inits := Sentry_inits w; Sentry_client := Sentry_client w;
      Sentry_captured := Sentry_captured w |}, Return tt).

(** [writer(prefix, text)] *)
Definition write (writer : Writer) (prefix text : string) : M unit := fun w =>
  ({| Kino_instance := Kino_instance w; Kino_locale := Kino_locale w;
      Sub_instance := Sub_instance w; Sub_locale := Sub_locale w;
      clock := clock w;
      console := console w ++
        [{| line_writer := writer; line_prefix := prefix; line_text := text |}];
      process_listeners := process_listeners w;
      Sentry_inits := Sentry_inits w; Sentry_client := Sentry_client w;
      Sentry_captured := Sentry_captured w |}, Return tt).

(** [process.on(event, listener)] *)
Definition process_on (event : string) (listener : Listener) : M unit := fun w =>
  ({| Kino_instance := Kino_instance w; Kino_locale := Kino_locale w;
      Sub_instance := Sub_instance w; Sub_locale := Sub_locale w;
      clock := clock w; console := console w;
      process_listeners := process_listeners w ++ [(event, listener)];
      Sentry_inits := Sentry_inits w; Sentry_client := Sentry_client w;
      Sentry_captured := Sentry_captured w |}, Return tt).

Definition Sentry_getClient : M (option (gmap string jsval)) :=
  fun w => (w, Return (Sentry_client w)).

(** [Sentry.captureException(exception, hint)] *)
Definition Sentry_captureException (exception : jsval)
    (hint : SentryCaptureContext) : M unit := fun w =>
  ({| Kino_instance := Kino_instance w; Kino_locale := Kino_locale w;
      Sub_instance := Sub_instance w; Sub_locale := Sub_locale w;
      clock := clock w; console := console w;
      process_listeners := process_listeners w;
      Sentry_inits := Sentry_inits w; Sentry_client := Sentry_client w;
      Sentry_captured := Sentry_captured w ++ [(exception, hint)] |}, Return tt).

(** ** class Kino *)

(** [xs.includes(x)] on an array of strings. *)
Definition includes (xs : list string) (x : string) : bool :=
  existsb (String.eqb x) xs.

(** The guard that opens the methods:
    [if (!Kino.instance) throw new Error('Logger not initialized')]. *)
Definition check_initialized : M unit :=
  inst ← get_instance;
  match inst with
  | None => throw (Error_ "Logger not initialized")
  | Some _ => mret tt
  end.

(** [this.instance.name(...)] in a static method: reading a property of
    [undefined] is a [TypeError] of the runtime. *)
Definition on_instance {A : Type} (this : Receiver) (name : string)
    (method : Kino → M A) : M A :=
  inst ← this_instance this;
  match inst with
  | None =>
      throw (TypeError_
        ("Cannot read properties of undefined (reading '" +:+ name +:+ "')"))
  | Some k => method k
  end.

(** The local constant [integrations] of [init], as it stands when
    [Sentry.init] is called (lines 110 to 131 of the method). *)
Definition integrations (config : KinoInitOptions) : list Integration :=
  let integrations :=
    [ functionToStringIntegration;
      linkedErrorsIntegration;
      consoleIntegration ["error"; "warn"; "debug"; "trace"];
      nativeNodeFetchIntegration;
      httpIntegration;
      contextLinesIntegration;
      childProcessIntegration;
      modulesIntegration ] in
  let integrations :=
    if negb (default false (autoCaptureUnhandledRejections config))
    then integrations ++ [onUncaughtExceptionIntegration; onUnhandledRejectionIntegration]
    else integrations in
  let integrations :=
    if default false (ANR config)
    then integrations ++ [anrIntegration true]
    else integrations in
  let integrations :=
    if default false ((λ p, includes p "knex") <$> packages config)
    then integrations ++ [knexIntegration]
    else integrations in
  let integrations :=
    if default false ((λ p, includes p "mysql2") <$> packages config)
    then integrations ++ [mysql2Integration]
    else integrations in
  integrations.

(** The object literal passed to [Sentry.init], property by property in
    the order of the source; a later property replaces an earlier one of
    the same name. *)
Definition Sentry_options (config_sentry : gmap string jsval)
    (integrations : list Integration) : gmap string jsval :=
  let o : gmap string jsval :=
    {[ "tracesSampleRate" :=
         nullish (prop config_sentry "tracesSampleRate") (JNum (1 # 10)) ]} in
  let o :=
    spread o (if negb (truthy (prop config_sentry "defaultIntegrations"))
              then {[ "defaultIntegrations" := JBool false ]} else ∅) in
  let o := <[ "integrations" := JArr (JIntegration <$> integrations) ]> o in
  let o :=
    <[ "maxBreadcrumbs" :=
         nullish (prop config_sentry "maxBreadcrumbs") (JNum (5 # 1)) ]> o in
  let o := <[ "sendClientReports" := JBool false ]> o in
  spread o config_sentry.

Module Kino.
Section Methods.

(** The collaborators whose answers the class only passes on: the date
    formatter ([Date.prototype.toLocaleString] with the fixed two-digit
    options; [None] when it throws a [RangeError] because the locale is
    not a well-formed tag), the styles of [chalk], [util.inspect] with
    its [depth] and [colors] options, and the exception, if any, that
    [Sentry.init] throws on the options it is given. *)
Variable toLocaleString : Z → string → option string.
Variable chalk : Chalk → string → string.
Variable util_inspect : jsval → nat → bool → string.
Variable Sentry_throws : gmap string jsval → option Exception.

(** [Sentry.init(options)]: when the call returns, [Sentry.getClient()]
    is the client built from [options]. *)
Definition Sentry_init (options : gmap string jsval) : M unit := fun w =>
  ({| Kino_instance := Kino_instance w; Kino_locale := Kino_locale w;
      Sub_instance := Sub_instance w; Sub_locale := Sub_locale w;
      clock := clock w; console := console w;
      process_listeners := process_listeners w;
      Sentry_inits := Sentry_inits w ++ [options];
      Sentry_client :=
        match Sentry_throws options with
        | Some _ => Sentry_client w
        | None => Some options
        end;
      Sentry_captured := Sentry_captured w |},
   match Sentry_throws options with
   | Some e => Throw e
   | None => Return tt
   end).

(** [public static init(config)], with [this] the class it is called
    on: the guard reads [Kino.instance], the assignments go to
    [this.locale] and [this.instance]. *)
Definition init (this : Receiver) (config : KinoInitOptions) : M unit :=
  inst ← get_instance;
  match inst with
  | Some _ => throw (Error_ "Logger already initialized")
  | None =>
      match locale config with
      | Some l => if negb (String.eqb l "") then set_locale this l else mret tt
      | None => mret tt
      end;;
      set_instance this
        (new_Kino (default "GLOBAL" (defaultIntanceTitle config)));;
      match sentry config with
      | Some config_sentry =>
          Sentry_init (Sentry_options config_sentry (integrations config))
      | None => mret tt
      end;;
      if default false (autoCaptureUnhandledRejections config)
      then
        process_on "unhandledRejection" unhandledRejection_listener;;
        process_on "uncaughtException" uncaughtException_listener
      else mret tt
  end.

(** [private static formatDate()], with [this] the class it is called
    on. *)
Definition formatDate (this : Receiver) : M string := fun w =>
  match toLocaleString (clock w) (read_locale this w) with
  | Some date => (w, Return date)
  | None => (w, Throw (RangeError_ "Incorrect locale information provided"))
  end.

(** [private output(type, ...entries)]; the date is asked of
    [Kino.formatDate()]. *)
Definition output (this : Kino) (type : LevelKey) (entries : list jsval) : M unit :=
  let color := chalk (COLORS type) in
  let level := LEVELS type in
  date ← formatDate Kino_itself;
  let prefix :=
    color ("[" +:+ date +:+ " - " +:+ module this +:+ " - " +:+ level +:+ "]") in
  let writer :=
    match type with
    | Kerror => console_error
    | Kwarn => console_warn
    | Kinfo => console_info
    | Kdebug => console_debug
    | _ => console_log
    end in
  for_of entries (λ entry,
    write writer prefix
      match entry with
      | JStr s => s                        (* typeof entry === 'string' *)
      | _ => util_inspect entry 3 true     (* { depth: 3, colors: true } *)
      end).

(** *** Instance methods *)

Definition log (this : Kino) (entries : list jsval) : M unit :=
  check_initialized;; output this Klog entries.

Definition info (this : Kino) (entries : list jsval) : M unit :=
  check_initialized;; output this Kinfo entries.

Definition debug (this : Kino) (entries : list jsval) : M unit :=
  check_initialized;; output this Kdebug entries.

Definition success (this : Kino) (entries : list jsval) : M unit :=
  check_initialized;; output this Ksuccess entries.

Definition warn (this : Kino) (entries : list jsval) : M unit :=
  check_initialized;; output this Kwarn entries.

Definition error (this : Kino) (err : jsval)
    (context : option SentryCaptureContext) : M unit :=
  check_initialized;;
  output this Kerror [err];;
  client ← Sentry_getClient;
  match client with
  | Some _ =>
      Sentry_captureException err
        {| tags := Some (<[ "module" := module this ]>
                           (default ∅ (context ≫= tags)));
           extras := context ≫= extras;
           user := context ≫= user |}
  | None => mret tt
  end.

Definition trace (this : Kino) (uid : string)
    (context : option SentryCaptureContext) : M (jsval → M unit) :=
  check_initialized;;
  mret (λ err : jsval,
    let fullContext :=
      {| tags := Some (<[ "trace_uid" := uid ]>
                         (default ∅ (context ≫= tags)));
         extras := context ≫= extras;
         user := context ≫= user |} in
    error this err (Some fullContext)).

(** *** Static methods, with [this] the class they are called on *)

Definition log_static (this : Receiver) (entries : list jsval) : M unit :=
  on_instance this "log" (λ k, log k entries).

Definition info_static (this : Receiver) (entries : list jsval) : M unit :=
  check_initialized;; on_instance this "info" (λ k, info k entries).

Definition debug_static (this : Receiver) (entries : list jsval) : M unit :=
  check_initialized;; on_instance this "debug" (λ k, debug k entries).

Definition success_static (this : Receiver) (entries : list jsval) : M unit :=
  check_initialized;; on_instance this "success" (λ k, success k entries).

Definition warn_static (this : Receiver) (entries : list jsval) : M unit :=
  check_initialized;; on_instance this "warn" (λ k, warn k entries).

Definition error_static (this : Receiver) (err : jsval)
    (context : option SentryCaptureContext) : M unit :=
  check_initialized;; on_instance this "error" (λ k, error k err context).

Definition trace_static (this : Receiver) (uid : string) : M (jsval → M unit) :=
  check_initialized;; on_instance this "trace" (λ k, trace k uid None).

(** Calling a listener registered by [init] with the event's argument.
    Both bodies are [Kino.error(x)]; the second listener is [async], so
    an exception of its body rejects the promise it returns instead of
    being thrown to the emitter. *)
Definition call_listener (l : Listener) (x : jsval) : M unit :=
  match l with
  | unhandledRejection_listener => error_static Kino_itself x None
  | uncaughtException_listener =>
      fun w => (fst (error_static Kino_itself x None w), Return tt)
  end.

End Methods.
End Kino.
Import Kino.

(** ** Running the model *)

(** Collaborators for concrete runs: a date formatter that prints a
    fixed date and, as [Intl] does, rejects the locale ['en_US'], which
    is not a well-formed language tag; [chalk] without colour support
    (it returns its argument); an inspector that prints the type of the
    value; and an SDK that throws when [defaultIntegrations] is [true],
    which it expects to be [false] or an array. *)
Definition sample_date : Z → string → option string :=
  λ _ l, if String.eqb l "en_US" then None
         else Some ("01/02/2025, 03:04:05 (" +:+ l +:+ ")").
Definition sample_chalk : Chalk → string → string := λ _ s, s.
Definition sample_inspect : jsval → nat → bool → string :=
  λ v depth _, "<" +:+ typeof v +:+ ">".
Definition sample_Sentry : gmap string jsval → option Exception :=
  λ options,
    match options !! "defaultIntegrations" with
    | Some (JBool true) =>
        Some (TypeError_ "options.defaultIntegrations is not iterable")
    | _ => None
    end.

(** [t] occurs in [s]. *)
Fixpoint contains (t s : string) : bool :=
  String.prefix t s ||
  match s with
  | EmptyString => false
  | String _ s' => contains t s'
  end.

(** The world with [ls] written to the console. *)
Definition add_lines (ls : list Line) (w : World) : World :=
  {| Kino_instance := Kino_instance w; Kino_locale := Kino_locale w;
     Sub_instance := Sub_instance w; Sub_locale := Sub_locale w;
     clock := clock w; console := console w ++ ls;
     process_listeners := process_listeners w;
     Sentry_inits := Sentry_inits w; Sentry_client := Sentry_client w;
     Sentry_captured := Sentry_captured w |}.

(** The world with [cs] handed to [Sentry.captureException]. *)
Definition add_captured (cs : list (jsval * SentryCaptureContext))
    (w : World) : World :=
  {| Kino_instance := Kino_instance w; Kino_locale := Kino_locale w;
     Sub_instance := Sub_instance w; Sub_locale := Sub_locale w;
     clock := clock w; console := console w;
     process_listeners := process_listeners w;
     Sentry_inits := Sentry_inits w; Sentry_client := Sentry_client w;
     Sentry_captured := Sentry_captured w ++ cs |}.

Example run_boot_log :
  log sample_date sample_chalk sample_inspect (new_Kino "Db") [JStr "x"] (boot 0)
  = (boot 0, Throw (Error_ "Logger not initialized")).
Proof. reflexivity. Qed.

Example run_init_warn :
  console (after (init sample_Sentry Kino_itself
                    {| sentry := None; packages := None; ANR := None;
                       defaultIntanceTitle := None; locale := Some "fr-FR";
                       autoCaptureUnhandledRejections := None |};;
                  warn_static sample_date sample_chalk sample_inspect Kino_itself
                    [JStr "disk"; JNull]) (boot 0))
  = [ {| line_writer := console_warn;
         line_prefix := "[01/02/2025, 03:04:05 (fr-FR) - GLOBAL - WARN]";
         line_text := "disk" |};
      {| line_writer := console_warn;
         line_prefix := "[01/02/2025, 03:04:05 (fr-FR) - GLOBAL - WARN]";
         line_text := "<object>" |} ].
Proof. reflexivity. Qed.

(** ** Basic facts *)

Lemma add_lines_nil (w : World) : add_lines [] w = w.
Proof. destruct w; unfold add_lines; cbn. by rewrite app_nil_r. Qed.

Lemma add_lines_app (ls1 ls2 : list Line) (w : World) :
  add_lines ls2 (add_lines ls1 w) = add_lines (ls1 ++ ls2) w.
Proof. unfold add_lines; cbn. by rewrite app_assoc. Qed.

Lemma add_captured_nil (w : World) : add_captured [] w = w.
Proof. destruct w; unfold add_captured; cbn. by rewrite app_nil_r. Qed.

Lemma bind_Return {A B : Type} (m : M A) (k : A → M B) (w w' : World) (a : A) :
  m w = (w', Return a) → (m ≫= k) w = k a w'.
Proof. intros H. unfold mbind, M_bind. by rewrite H. Qed.

Lemma bind_Throw {A B : Type} (m : M A) (k : A → M B) (w w' : World) (e : Exception) :
  m w = (w', Throw e) → (m ≫= k) w = (w', Throw e).
Proof. intros H. unfold mbind, M_bind. by rewrite H. Qed.

Lemma check_initialized_Some (w : World) :
  Kino_instance w ≠ None → check_initialized w = (w, Return tt).
Proof.
  intros H. unfold check_initialized, get_instance, mbind, M_bind.
  destruct (Kino_instance w); [reflexivity | contradiction].
Qed.

Lemma check_initialized_None (w : World) :
  Kino_instance w = None →
  check_initialized w = (w, Throw (Error_ "Logger not initialized")).
Proof.
  intros H. unfold check_initialized, get_instance, mbind, M_bind.
  by rewrite H.
Qed.

Lemma on_instance_Some {A : Type} (this : Receiver) (name : string)
    (method : Kino → M A) (w : World) (k : Kino) :
  read_instance this w = Some k → on_instance this name method w = method k w.
Proof.
  intros H. unfold on_instance, this_instance, mbind, M_bind. by rewrite H.
Qed.

(** Once [Kino.instance] is set, [this.instance] is defined on every
    class: it is inherited where it is not shadowed. *)
Lemma read_instance_Some (this : Receiver) (w : World) :
  Kino_instance w ≠ None → ∃ k, read_instance this w = Some k.
Proof.
  intros H. induction this as [|i n super IH]; cbn [read_instance].
  - destruct (Kino_instance w); [eauto | contradiction].
  - destruct (Sub_instance w !! Subclass i n super); eauto.
Qed.

Lemma write_eq (writer : Writer) (prefix text : string) (w : World) :
  write writer prefix text w
  = (add_lines [{| line_writer := writer; line_prefix := prefix;
                   line_text := text |}] w, Return tt).
Proof. reflexivity. Qed.

Lemma for_of_write (writer : Writer) (prefix : string) (text : jsval → string)
    (entries : list jsval) (w : World) :
  for_of entries (λ entry, write writer prefix (text entry)) w
  = (add_lines
       ((λ entry, {| line_writer := writer; line_prefix := prefix;
                     line_text := text entry |}) <$> entries) w,
     Return tt).
Proof.
  revert w. induction entries as [|e es IH]; intros w.
  - cbn. by rewrite add_lines_nil.
  - cbn [for_of]. rewrite (bind_Return _ _ _ _ _ (write_eq _ _ _ w)).
    rewrite IH, add_lines_app. reflexivity.
Qed.

Lemma prefix_app (t s : string) : String.prefix t (t +:+ s) = true.
Proof.
  induction t as [|c t IH].
  - by destruct s.
  - change (String c t +:+ s) with (String c (t +:+ s)).
    cbn [String.prefix]. by destruct (Ascii.ascii_dec c c).
Qed.

Lemma contains_prefix (t s : string) :
  String.prefix t s = true → contains t s = true.
Proof. intros H. destruct s; cbn [contains]; by rewrite H. Qed.

Lemma contains_here (t b : string) : contains t (t +:+ b) = true.
Proof. apply contains_prefix, prefix_app. Qed.

Lemma contains_skip (a t s : string) :
  contains t s = true → contains t (a +:+ s) = true.
Proof.
  intros H. induction a as [|c a IH].
  - exact H.
  - change (String c a +:+ s) with (String c (a +:+ s)).
    cbn [contains]. rewrite IH. apply orb_true_r.
Qed.

(** ** Sequences of calls *)

(** The calls a program can make on the facade; a static call names the
    class it is made on.  [call_trace] builds the closure and applies it
    to each of [errs] in turn. *)
Inductive Call : Type :=
| call_init (this : Receiver) (config : KinoInitOptions)
| call_log (this : Kino) (entries : list jsval)
| call_info (this : Kino) (entries : list jsval)
| call_debug (this : Kino) (entries : list jsval)
| call_success (this : Kino) (entries : list jsval)
| call_warn (this : Kino) (entries : list jsval)
| call_error (this : Kino) (err : jsval) (context : option SentryCaptureContext)
| call_trace (this : Kino) (uid : string)
    (context : option SentryCaptureContext) (errs : list jsval)
| call_log_static (this : Receiver) (entries : list jsval)
| call_info_static (this : Receiver) (entries : list jsval)
| call_debug_static (this : Receiver) (entries : list jsval)
| call_success_static (this : Receiver) (entries : list jsval)
| call_warn_static (this : Receiver) (entries : list jsval)
| call_error_static (this : Receiver) (err : jsval)
    (context : option SentryCaptureContext)
| call_trace_static (this : Receiver) (uid : string) (errs : list jsval)
| call_event (l : Listener) (x : jsval).

(** A call is [init] or it is not. *)
Lemma call_init_or_not (c : Call) :
  (∃ this config, c = call_init this config)
  ∨ (∀ this config, c ≠ call_init this config).
Proof. destruct c; [left; eauto | right; discriminate ..]. Qed.

(** A computation that leaves [Kino.instance] as it found it. *)
Definition keeps_instance {A : Type} (m : M A) : Prop :=
  ∀ w, Kino_instance (after m w) = Kino_instance w.

(** ** What the methods do *)

(** The context [Kino.error] hands to Sentry for [context] on the
    instance labelled [label]. *)
Definition forwarded (label : string) (context : option SentryCaptureContext) :
    SentryCaptureContext :=
  {| tags := Some (<[ "module" := label ]> (default ∅ (context ≫= tags)));
     extras := context ≫= extras;
     user := context ≫= user |}.

(** The context the closure of [trace uid context] hands to [error]. *)
Definition traced (uid : string) (context : option SentryCaptureContext) :
    SentryCaptureContext :=
  {| tags := Some (<[ "trace_uid" := uid ]> (default ∅ (context ≫= tags)));
     extras := context ≫= extras;
     user := context ≫= user |}.

(** *** The integrations [init] assembles *)

Lemma includes_elem_of (xs : list string) (x : string) :
  includes xs x = true ↔ x ∈ xs.
Proof.
  unfold includes. rewrite existsb_exists, list_elem_of_In. split.
  - intros (y & Hy & E). apply String.eqb_eq in E. by subst.
  - intros H. exists x. split; [exact H | apply String.eqb_refl].
Qed.

(** The integrations installed whatever the configuration says. *)
Definition baseline : list Integration :=
  [ functionToStringIntegration; linkedErrorsIntegration;
    consoleIntegration ["error"; "warn"; "debug"; "trace"];
    nativeNodeFetchIntegration; httpIntegration; contextLinesIntegration;
    childProcessIntegration; modulesIntegration ].

Lemma integrations_eq (config : KinoInitOptions) :
  integrations config
  = baseline
    ++ (if default false (autoCaptureUnhandledRejections config) then []
        else [onUncaughtExceptionIntegration; onUnhandledRejectionIntegration])
    ++ (if default false (ANR config) then [anrIntegration true] else [])
    ++ (if default false ((λ p, includes p "knex") <$> packages config)
        then [knexIntegration] else [])
    ++ (if default false ((λ p, includes p "mysql2") <$> packages config)
        then [mysql2Integration] else []).
Proof.
  unfold integrations, baseline.
  destruct (default false (autoCaptureUnhandledRejections config)),
    (default false (ANR config)),
    (default false ((λ p, includes p "knex") <$> packages config)),
    (default false ((λ p, includes p "mysql2") <$> packages config));
    reflexivity.
Qed.

Lemma package_selected (config : KinoInitOptions) (name : string) :
  default false ((λ p, includes p name) <$> packages config) = true
  ↔ ∃ p, packages config = Some p ∧ name ∈ p.
Proof.
  destruct (packages config) as [p|]; cbn.
  - rewrite includes_elem_of. split; [eauto | by intros (q & [= <-] & H)].
  - split; [discriminate | by intros (q & [=] & _)].
Qed.

#[global] Instance Integration_eq_dec : EqDecision Integration.
Proof. solve_decision. Defined.

(** Membership in a list that is written out is settled by running the
    decision procedure. *)
Ltac decide_membership :=
  lazymatch goal with
  | |- _ ∈ _ => apply (bool_decide_unpack _); vm_compute; exact I
  | |- _ ∈ _ → False =>
      let H := fresh in
      intros H; apply (bool_decide_pack _) in H; vm_compute in H; exact H
  | |- _ ∉ _ =>
      let H := fresh in
      intros H; apply (bool_decide_pack _) in H; vm_compute in H; exact H
  end.

Ltac integrations_cases config :=
  rewrite integrations_eq;
  destruct (default false (autoCaptureUnhandledRejections config)),
    (default false (ANR config)),
    (default false ((λ p, includes p "knex") <$> packages config)),
    (default false ((λ p, includes p "mysql2") <$> packages config)).

Lemma knex_assembled (config : KinoInitOptions) :
  knexIntegration ∈ integrations config
  ↔ ∃ p, packages config = Some p ∧ "knex" ∈ p.
Proof.
  rewrite <- package_selected. integrations_cases config;
    (split; [first [reflexivity | intros H; exfalso; revert H; decide_membership]
            | first [discriminate | intros _; decide_membership]]).
Qed.

Lemma mysql2_assembled (config : KinoInitOptions) :
  mysql2Integration ∈ integrations config
  ↔ ∃ p, packages config = Some p ∧ "mysql2" ∈ p.
Proof.
  rewrite <- package_selected. integrations_cases config;
    (split; [first [reflexivity | intros H; exfalso; revert H; decide_membership]
            | first [discriminate | intros _; decide_membership]]).
Qed.

Lemma sdk_handlers_assembled (config : KinoInitOptions) :
  (autoCaptureUnhandledRejections config ≠ Some true →
   onUncaughtExceptionIntegration ∈ integrations config
   ∧ onUnhandledRejectionIntegration ∈ integrations config)
  ∧ (autoCaptureUnhandledRejections config = Some true →
     (onUncaughtExceptionIntegration ∉ integrations config)
     ∧ (onUnhandledRejectionIntegration ∉ integrations config)).
Proof.
  split; intros H.
  - assert (default false (autoCaptureUnhandledRejections config) = false) as E
      by (by destruct (autoCaptureUnhandledRejections config) as [[|]|]).
    rewrite integrations_eq, E.
    destruct (default false (ANR config)),
      (default false ((λ p, includes p "knex") <$> packages config)),
      (default false ((λ p, includes p "mysql2") <$> packages config));
      split; decide_membership.
  - rewrite integrations_eq, H. cbn [default].
    destruct (default false (ANR config)),
      (default false ((λ p, includes p "knex") <$> packages config)),
      (default false ((λ p, includes p "mysql2") <$> packages config));
      split; decide_membership.
Qed.

(** *** The options [init] hands to [Sentry.init] *)

(** Integration [i] is in the [integrations] array of the options of
    the latest call of [Sentry.init]. *)
Definition passed_to_Sentry (i : Integration) (w : World) : Prop :=
  ∃ options l,
    last (Sentry_inits w) = Some options
    ∧ options !! "integrations" = Some (JArr l)
    ∧ JIntegration i ∈ l.

Lemma Sentry_options_override (config_sentry : gmap string jsval)
    (l : list Integration) (k : string) (v : jsval) :
  config_sentry !! k = Some v → Sentry_options config_sentry l !! k = Some v.
Proof. intros H. unfold Sentry_options, spread. by apply lookup_union_Some_l. Qed.

Lemma Sentry_options_integrations (config_sentry : gmap string jsval)
    (l : list Integration) :
  config_sentry !! "integrations" = None →
  Sentry_options config_sentry l !! "integrations"
  = Some (JArr (JIntegration <$> l)).
Proof.
  intros H. unfold Sentry_options, spread.
  rewrite lookup_union_r by exact H. by simplify_map_eq.
Qed.

Section Init.

Variable Sentry_throws : gmap string jsval → option Exception.

Local Abbreviation init := (init Sentry_throws).

(** The exception, if any, that [Sentry.init] throws on the options
    [init] builds from [config]. *)
Definition init_throws (config : KinoInitOptions) : option Exception :=
  match sentry config with
  | Some config_sentry =>
      Sentry_throws (Sentry_options config_sentry (integrations config))
  | None => None
  end.

(** The world [init], called on [this] before [Kino.instance] is set,
    leaves behind: the statics are written, [Sentry.init] is called if
    there is a Sentry configuration, and the listeners are registered
    if that call did not throw. *)
Definition init_world (this : Receiver) (config : KinoInitOptions)
    (w : World) : World :=
  {| Kino_instance :=
       match this with
       | Kino_itself =>
           Some (new_Kino (default "GLOBAL" (defaultIntanceTitle config)))
       | _ => Kino_instance w
       end;
     Kino_locale :=
       match this, locale config with
       | Kino_itself, Some l =>
           if negb (String.eqb l "") then l else Kino_locale w
       | _, _ => Kino_locale w
       end;
     Sub_instance :=
       match this with
       | Kino_itself => Sub_instance w
       | _ => <[ this := new_Kino (default "GLOBAL" (defaultIntanceTitle config)) ]>
                (Sub_instance w)
       end;
     Sub_locale :=
       match this, locale config with
       | Subclass _ _ _, Some l =>
           if negb (String.eqb l "") then <[ this := l ]> (Sub_locale w)
           else Sub_locale w
       | _, _ => Sub_locale w
       end;
     clock := clock w;
     console := console w;
     process_listeners :=
       process_listeners w ++
       match init_throws config with
       | Some _ => []
       | None =>
           if default false (autoCaptureUnhandledRejections config)
           then [("unhandledRejection", unhandledRejection_listener);
                 ("uncaughtException", uncaughtException_listener)]
           else []
       end;
     Sentry_inits :=
       Sentry_inits w ++
       match sentry config with
       | Some config_sentry =>
           [Sentry_options config_sentry (integrations config)]
       | None => []
       end;
     Sentry_client :=
       match sentry config, init_throws config with
       | Some config_sentry, None =>
           Some (Sentry_options config_sentry (integrations config))
       | _, _ => Sentry_client w
       end;
     Sentry_captured := Sentry_captured w |}.

Lemma init_Some (this : Receiver) (config : KinoInitOptions) (w : World) :
  Kino_instance w ≠ None →
  init this config w = (w, Throw (Error_ "Logger already initialized")).
Proof.
  intros H. unfold Kino.init, get_instance, mbind, M_bind.
  destruct (Kino_instance w); [reflexivity | contradiction].
Qed.

Lemma init_None (this : Receiver) (config : KinoInitOptions) (w : World) :
  Kino_instance w = None →
  init this config w
  = (init_world this config w,
     match init_throws config with
     | Some e => Throw e
     | None => Return tt
     end).
Proof.
  intros H. unfold Kino.init, init_world, init_throws, get_instance, mbind, M_bind.
  rewrite H. destruct w as [i l si sl c co pl ins sc sca]; cbn in *. subst i.
  destruct this as [|id n super];
    (destruct (locale config) as [loc|]; [destruct (String.eqb loc "")|]);
    (destruct (sentry config) as [s|];
       [unfold Sentry_init; cbn;
        destruct (Sentry_throws (Sentry_options s (integrations config)))|]);
    destruct (autoCaptureUnhandledRejections config) as [[|]|];
    cbn; unfold process_on; cbn; rewrite <- ?app_assoc, ?app_nil_r;
    reflexivity.
Qed.

Lemma init_inits (this : Receiver) (config : KinoInitOptions) (w : World) :
  Kino_instance w = None →
  Sentry_inits (after (init this config) w)
  = Sentry_inits w ++
      match sentry config with
      | Some config_sentry =>
          [Sentry_options config_sentry (integrations config)]
      | None => []
      end.
Proof. intros H. unfold after. by rewrite (init_None this config w H). Qed.

Lemma init_passed (this : Receiver) (config : KinoInitOptions)
    (config_sentry : gmap string jsval) (w : World) (i : Integration) :
  Kino_instance w = None →
  sentry config = Some config_sentry →
  config_sentry !! "integrations" = None →
  passed_to_Sentry i (after (init this config) w) ↔ i ∈ integrations config.
Proof.
  intros Hw Hs Hi. unfold passed_to_Sentry.
  rewrite (init_inits this config w Hw), Hs, last_snoc.
  split.
  - intros (options & l & [= <-] & Hl & Hin).
    rewrite (Sentry_options_integrations _ _ Hi) in Hl. injection Hl as <-.
    apply list_elem_of_fmap in Hin as (j & [= <-] & Hj). exact Hj.
  - intros Hin. eexists _, _. split; [reflexivity |].
    split; [by apply Sentry_options_integrations |].
    apply list_elem_of_fmap. eauto.
Qed.

(** C6 (amended): when [init] is given a Sentry configuration that does
    not bring an [integrations] option of its own, the list handed to
    [Sentry.init] holds the knex integration exactly when [packages]
    contains ['knex'], and the mysql2 integration exactly when it
    contains ['mysql2']; without [packages] it holds neither.  Without a
    Sentry configuration [Sentry.init] is not called at all. *)
Theorem packages_select_integrations (this : Receiver)
    (config : KinoInitOptions) (config_sentry : gmap string jsval)
    (w : World) :
  Kino_instance w = None →
  sentry config = Some config_sentry →
  config_sentry !! "integrations" = None →
  let w' := after (init this config) w in
  (passed_to_Sentry knexIntegration w'
   ↔ ∃ p, packages config = Some p ∧ "knex" ∈ p)
  ∧ (passed_to_Sentry mysql2Integration w'
     ↔ ∃ p, packages config = Some p ∧ "mysql2" ∈ p)
  ∧ (packages config = None →
     ¬ passed_to_Sentry knexIntegration w'
     ∧ ¬ passed_to_Sentry mysql2Integration w').
Proof.
  intros Hw Hs Hi w'. unfold w'.
  rewrite !(init_passed this config config_sentry w _ Hw Hs Hi).
  rewrite knex_assembled, mysql2_assembled.
  split; [reflexivity |]. split; [reflexivity |].
  intros Hp. rewrite Hp. split; by intros (p & [=] & _).
Qed.

(** Without a Sentry configuration, [init] does not call [Sentry.init]
    and leaves the Sentry client as it was. *)
Lemma init_without_sentry (this : Receiver) (config : KinoInitOptions)
    (w : World) :
  Kino_instance w = None → sentry config = None →
  Sentry_client (after (init this config) w) = Sentry_client w
  ∧ Sentry_inits (after (init this config) w) = Sentry_inits w.
Proof.
  intros Hw Hs. unfold after. rewrite (init_None this config w Hw). cbn.
  rewrite Hs. split; [reflexivity | apply app_nil_r].
Qed.

(** C8: when [init] is given a Sentry configuration, every option of
    that configuration reaches [Sentry.init] with the caller's value;
    [tracesSampleRate] is 0.1, [maxBreadcrumbs] is 5 and
    [sendClientReports] is [false] when the caller does not set them.
    The options become those of the Sentry client when [Sentry.init]
    returns. *)
Theorem sentry_defaults_overridable (this : Receiver)
    (config : KinoInitOptions) (config_sentry : gmap string jsval)
    (w : World) :
  Kino_instance w = None →
  sentry config = Some config_sentry →
  ∃ options,
    last (Sentry_inits (after (init this config) w)) = Some options
    ∧ (Sentry_throws options = None →
       Sentry_client (after (init this config) w) = Some options)
    ∧ (∀ k v, config_sentry !! k = Some v → options !! k = Some v)
    ∧ (config_sentry !! "tracesSampleRate" = None →
       options !! "tracesSampleRate" = Some (JNum (1 # 10)))
    ∧ (config_sentry !! "maxBreadcrumbs" = None →
       options !! "maxBreadcrumbs" = Some (JNum (5 # 1)))
    ∧ (config_sentry !! "sendClientReports" = None →
       options !! "sendClientReports" = Some (JBool false)).
Proof.
  intros Hw Hs. eexists. split.
  { rewrite (init_inits this config w Hw), Hs. apply last_snoc. }
  split.
  { intros Hok. unfold after. rewrite (init_None this config w Hw). cbn.
    unfold init_throws. by rewrite Hs, Hok. }
  split; [intros k v; apply Sentry_options_override |].
  unfold Sentry_options, spread, prop.
  split; [| split]; intros H; rewrite (lookup_union_r _ _ _ H), ?H; cbn.
  - rewrite !lookup_insert_ne by done.
    destruct (negb _).
    + rewrite lookup_union_r by done. apply lookup_singleton_eq.
    + rewrite lookup_union_r by done. apply lookup_singleton_eq.
  - rewrite lookup_insert_ne by done. apply lookup_insert_eq.
  - apply lookup_insert_eq.
Qed.

End Init.

Section Facts.

Variable toLocaleString : Z → string → option string.
Variable chalk : Chalk → string → string.
Variable util_inspect : jsval → nat → bool → string.
Variable Sentry_throws : gmap string jsval → option Exception.

Local Abbreviation init := (init Sentry_throws).
Local Abbreviation output := (output toLocaleString chalk util_inspect).
Local Abbreviation log := (log toLocaleString chalk util_inspect).
Local Abbreviation info := (info toLocaleString chalk util_inspect).
Local Abbreviation debug := (debug toLocaleString chalk util_inspect).
Local Abbreviation success := (success toLocaleString chalk util_inspect).
Local Abbreviation warn := (warn toLocaleString chalk util_inspect).
Local Abbreviation error := (error toLocaleString chalk util_inspect).
Local Abbreviation trace := (trace toLocaleString chalk util_inspect).
Local Abbreviation log_static := (log_static toLocaleString chalk util_inspect).
Local Abbreviation info_static := (info_static toLocaleString chalk util_inspect).
Local Abbreviation debug_static := (debug_static toLocaleString chalk util_inspect).
Local Abbreviation success_static := (success_static toLocaleString chalk util_inspect).
Local Abbreviation warn_static := (warn_static toLocaleString chalk util_inspect).
Local Abbreviation error_static := (error_static toLocaleString chalk util_inspect).
Local Abbreviation trace_static := (trace_static toLocaleString chalk util_inspect).
Local Abbreviation call_listener := (call_listener toLocaleString chalk util_inspect).

(** The text between the brackets of a prefix. *)
Definition bracket (date : string) (this : Kino) (type : LevelKey) : string :=
  "[" +:+ date +:+ " - " +:+ module this +:+ " - " +:+ LEVELS type +:+ "]".

(** The line [output] writes for one entry. *)
Definition line_of (date : string) (this : Kino) (type : LevelKey)
    (entry : jsval) : Line :=
  {| line_writer :=
       match type with
       | Kerror => console_error
       | Kwarn => console_warn
       | Kinfo => console_info
       | Kdebug => console_debug
       | _ => console_log
       end;
     line_prefix := chalk (COLORS type) (bracket date this type);
     line_text :=
       match entry with
       | JStr s => s
       | _ => util_inspect entry 3 true
       end |}.

(** [output] when the date formatter accepts [Kino.locale] ... *)
Lemma output_eq (this : Kino) (type : LevelKey) (entries : list jsval)
    (w : World) (date : string) :
  toLocaleString (clock w) (Kino_locale w) = Some date →
  output this type entries w
  = (add_lines (line_of date this type <$> entries) w, Return tt).
Proof.
  intros Hd. unfold Kino.output.
  erewrite bind_Return
    by (unfold formatDate; cbn [read_locale]; rewrite Hd; reflexivity).
  apply for_of_write.
Qed.

(** ... and when it does not: the exception leaves before any line is
    written. *)
Lemma output_RangeError (this : Kino) (type : LevelKey) (entries : list jsval)
    (w : World) :
  toLocaleString (clock w) (Kino_locale w) = None →
  output this type entries w
  = (w, Throw (RangeError_ "Incorrect locale information provided")).
Proof.
  intros Hd. unfold Kino.output.
  erewrite bind_Throw
    by (unfold formatDate; cbn [read_locale]; rewrite Hd; reflexivity).
  reflexivity.
Qed.

Lemma bracket_contains (date : string) (this : Kino) (type : LevelKey) :
  contains (module this) (bracket date this type) = true
  ∧ contains (LEVELS type) (bracket date this type) = true.
Proof.
  unfold bracket. split.
  - do 3 apply contains_skip. apply contains_here.
  - do 5 apply contains_skip. apply contains_here.
Qed.

(** A guarded method runs its body when the logger is initialised. *)
Lemma guarded_Some {A : Type} (body : M A) (w : World) :
  Kino_instance w ≠ None → (check_initialized;; body) w = body w.
Proof.
  intros H. by rewrite (bind_Return _ _ _ _ _ (check_initialized_Some w H)).
Qed.

(** ... and throws, leaving the world as it was, when it is not. *)
Lemma guarded_None {A : Type} (body : M A) (w : World) :
  Kino_instance w = None →
  (check_initialized;; body) w = (w, Throw (Error_ "Logger not initialized")).
Proof.
  intros H. by rewrite (bind_Throw _ _ _ _ _ (check_initialized_None w H)).
Qed.

Lemma error_eq (this : Kino) (err : jsval)
    (context : option SentryCaptureContext) (w : World) (date : string) :
  Kino_instance w ≠ None →
  toLocaleString (clock w) (Kino_locale w) = Some date →
  error this err context w
  = (add_captured
       match Sentry_client w with
       | Some _ => [(err, forwarded (module this) context)]
       | None => []
       end
       (add_lines [line_of date this Kerror err] w),
     Return tt).
Proof.
  intros H Hd. unfold Kino.error. rewrite guarded_Some by exact H.
  rewrite (bind_Return _ _ _ _ _ (output_eq this Kerror [err] w date Hd)).
  unfold Sentry_getClient.
  erewrite bind_Return by reflexivity.
  cbn [fmap list_fmap add_lines Sentry_client].
  destruct (Sentry_client w) as [o|].
  - reflexivity.
  - unfold mret, M_ret. by rewrite add_captured_nil.
Qed.

Lemma error_RangeError (this : Kino) (err : jsval)
    (context : option SentryCaptureContext) (w : World) :
  Kino_instance w ≠ None →
  toLocaleString (clock w) (Kino_locale w) = None →
  error this err context w
  = (w, Throw (RangeError_ "Incorrect locale information provided")).
Proof.
  intros H Hd. unfold Kino.error. rewrite guarded_Some by exact H.
  by rewrite (bind_Throw _ _ _ _ _ (output_RangeError this Kerror [err] w Hd)).
Qed.

Lemma level_eq (this : Kino) (type : LevelKey) (entries : list jsval)
    (w : World) (date : string) :
  Kino_instance w ≠ None →
  toLocaleString (clock w) (Kino_locale w) = Some date →
  (check_initialized;; output this type entries) w
  = (add_lines (line_of date this type <$> entries) w, Return tt).
Proof. intros H Hd. rewrite guarded_Some by exact H. by apply output_eq. Qed.

Lemma level_RangeError (this : Kino) (type : LevelKey) (entries : list jsval)
    (w : World) :
  Kino_instance w ≠ None →
  toLocaleString (clock w) (Kino_locale w) = None →
  (check_initialized;; output this type entries) w
  = (w, Throw (RangeError_ "Incorrect locale information provided")).
Proof.
  intros H Hd. rewrite guarded_Some by exact H. by apply output_RangeError.
Qed.

(** *** Who touches [Kino.instance] *)

Lemma keeps_bind {A B : Type} (m : M A) (k : A → M B) :
  keeps_instance m → (∀ a, keeps_instance (k a)) → keeps_instance (m ≫= k).
Proof.
  intros Hm Hk w. specialize (Hm w). unfold after, mbind, M_bind in *.
  destruct (m w) as [w' [a|e]]; cbn [fst] in *.
  - rewrite <- Hm. apply Hk.
  - exact Hm.
Qed.

Lemma keeps_mret {A : Type} (a : A) : keeps_instance (mret a).
Proof. intros w; reflexivity. Qed.

Lemma keeps_throw {A : Type} (e : Exception) : keeps_instance (throw (A := A) e).
Proof. intros w; reflexivity. Qed.

Lemma keeps_get_instance : keeps_instance get_instance.
Proof. intros w; reflexivity. Qed.

Lemma keeps_this_instance (this : Receiver) : keeps_instance (this_instance this).
Proof. intros w; reflexivity. Qed.

Lemma keeps_write (writer : Writer) (prefix text : string) :
  keeps_instance (write writer prefix text).
Proof. intros w; reflexivity. Qed.

Lemma keeps_getClient : keeps_instance Sentry_getClient.
Proof. intros w; reflexivity. Qed.

Lemma keeps_captureException (exception : jsval) (hint : SentryCaptureContext) :
  keeps_instance (Sentry_captureException exception hint).
Proof. intros w; reflexivity. Qed.

Lemma keeps_for_of {A : Type} (xs : list A) (body : A → M unit) :
  (∀ x, keeps_instance (body x)) → keeps_instance (for_of xs body).
Proof.
  intros Hb. induction xs as [|x xs IH]; cbn [for_of].
  - apply keeps_mret.
  - apply keeps_bind; [apply Hb | intros _; exact IH].
Qed.

Lemma keeps_check_initialized : keeps_instance check_initialized.
Proof.
  apply keeps_bind; [apply keeps_get_instance |].
  intros [k|]; [apply keeps_mret | apply keeps_throw].
Qed.

Lemma keeps_on_instance {A : Type} (this : Receiver) (name : string)
    (method : Kino → M A) :
  (∀ k, keeps_instance (method k)) →
  keeps_instance (on_instance this name method).
Proof.
  intros H. apply keeps_bind; [apply keeps_this_instance |].
  intros [k|]; [apply H | apply keeps_throw].
Qed.

Lemma keeps_output (this : Kino) (type : LevelKey) (entries : list jsval) :
  keeps_instance (output this type entries).
Proof.
  intros w. unfold after.
  destruct (toLocaleString (clock w) (Kino_locale w)) as [date|] eqn:Hd.
  - by rewrite (output_eq this type entries w date Hd).
  - by rewrite (output_RangeError this type entries w Hd).
Qed.

Lemma keeps_error (this : Kino) (err : jsval)
    (context : option SentryCaptureContext) :
  keeps_instance (error this err context).
Proof.
  apply keeps_bind; [apply keeps_check_initialized | intros _].
  apply keeps_bind; [apply keeps_output | intros _].
  apply keeps_bind; [apply keeps_getClient |].
  intros [o|]; [apply keeps_captureException | apply keeps_mret].
Qed.

(** *** Sequences of calls *)

(** The world after one call; a call that throws leaves the world as the
    exception found it, and the program goes on (the caller caught it). *)
Definition exec (c : Call) : World → World :=
  match c with
  | call_init this config => after (init this config)
  | call_log this entries => after (log this entries)
  | call_info this entries => after (info this entries)
  | call_debug this entries => after (debug this entries)
  | call_success this entries => after (success this entries)
  | call_warn this entries => after (warn this entries)
  | call_error this err context => after (error this err context)
  | call_trace this uid context errs =>
      after (f ← trace this uid context; for_of errs f)
  | call_log_static this entries => after (log_static this entries)
  | call_info_static this entries => after (info_static this entries)
  | call_debug_static this entries => after (debug_static this entries)
  | call_success_static this entries => after (success_static this entries)
  | call_warn_static this entries => after (warn_static this entries)
  | call_error_static this err context =>
      after (error_static this err context)
  | call_trace_static this uid errs =>
      after (f ← trace_static this uid; for_of errs f)
  | call_event l x => after (call_listener l x)
  end.

Definition run (calls : list Call) (w : World) : World :=
  foldl (λ w c, exec c w) w calls.

Lemma keeps_guarded_output (type : LevelKey) (this : Kino) (entries : list jsval) :
  keeps_instance (check_initialized;; output this type entries).
Proof. apply keeps_bind; [apply keeps_check_initialized | intros _; apply keeps_output]. Qed.

Lemma trace_eq (this : Kino) (uid : string)
    (context : option SentryCaptureContext) (w : World) :
  Kino_instance w ≠ None →
  trace this uid context w
  = (w, Return (λ err, error this err (Some (traced uid context)))).
Proof. intros H. unfold Kino.trace. by rewrite guarded_Some. Qed.

Lemma keeps_trace_apply (this : Kino) (uid : string)
    (context : option SentryCaptureContext) (errs : list jsval) :
  keeps_instance (f ← trace this uid context; for_of errs f).
Proof.
  intros w. unfold after. destruct (Kino_instance w) as [k|] eqn:E.
  - rewrite (bind_Return _ _ _ _ _ (trace_eq this uid context w ltac:(congruence))).
    rewrite <- E. apply (keeps_for_of errs). intros x. apply keeps_error.
  - unfold Kino.trace.
    by rewrite (bind_Throw _ _ _ _ _ (guarded_None _ w E)).
Qed.

Lemma keeps_static {A : Type} (this : Receiver) (name : string)
    (method : Kino → M A) :
  (∀ k, keeps_instance (method k)) →
  keeps_instance (check_initialized;; on_instance this name method).
Proof.
  intros H. apply keeps_bind; [apply keeps_check_initialized | intros _].
  by apply keeps_on_instance.
Qed.

(** A static method on an initialised logger is the method of
    [this.instance]. *)
Lemma static_eq {A : Type} (this : Receiver) (name : string)
    (method : Kino → M A) (w : World) (k : Kino) :
  Kino_instance w ≠ None →
  read_instance this w = Some k →
  (check_initialized;; on_instance this name method) w = method k w.
Proof.
  intros H E. rewrite guarded_Some by exact H. by apply on_instance_Some.
Qed.

Lemma keeps_trace_static_apply (this : Receiver) (uid : string)
    (errs : list jsval) :
  keeps_instance (f ← trace_static this uid; for_of errs f).
Proof.
  intros w. unfold after, Kino.trace_static.
  destruct (Kino_instance w) as [k0|] eqn:E.
  - assert (Kino_instance w ≠ None) as H by congruence.
    destruct (read_instance_Some this w H) as [k Hk].
    rewrite (bind_Return _ _ _ _ _
               (eq_trans (static_eq this "trace" _ w k H Hk)
                         (trace_eq k uid None w H))).
    rewrite <- E. apply (keeps_for_of errs). intros x. apply keeps_error.
  - by rewrite (bind_Throw _ _ _ _ _ (guarded_None _ w E)).
Qed.

(** Every call but [init] leaves [Kino.instance] alone. *)
Lemma exec_keeps_instance (c : Call) (w : World) :
  (∀ this config, c ≠ call_init this config) →
  Kino_instance (exec c w) = Kino_instance w.
Proof.
  intros Hc. destruct c; cbn [exec].
  - by destruct (Hc this config).
  - apply keeps_guarded_output.
  - apply keeps_guarded_output.
  - apply keeps_guarded_output.
  - apply keeps_guarded_output.
  - apply keeps_guarded_output.
  - apply keeps_error.
  - apply keeps_trace_apply.
  - apply keeps_on_instance. intros k. apply keeps_guarded_output.
  - apply keeps_static. intros k. apply keeps_guarded_output.
  - apply keeps_static. intros k. apply keeps_guarded_output.
  - apply keeps_static. intros k. apply keeps_guarded_output.
  - apply keeps_static. intros k. apply keeps_guarded_output.
  - apply keeps_static. intros k. apply keeps_error.
  - apply keeps_trace_static_apply.
  - destruct l; cbn [Kino.call_listener].
    + apply keeps_static. intros k. apply keeps_error.
    + unfold after at 1. cbn [fst].
      apply (keeps_static Kino_itself "error" (λ k, error k x None)).
      intros k. apply keeps_error.
Qed.

(** Once set, [Kino.instance] stays set, whatever is called and on
    whichever class. *)
Lemma exec_initialized (c : Call) (w : World) :
  Kino_instance w ≠ None → Kino_instance (exec c w) ≠ None.
Proof.
  intros H. destruct (call_init_or_not c) as [(this & config & ->)|Hc].
  - cbn [exec]. unfold after. by rewrite init_Some.
  - by rewrite exec_keeps_instance.
Qed.

Lemma run_initialized (calls : list Call) (w : World) :
  Kino_instance w ≠ None → Kino_instance (run calls w) ≠ None.
Proof.
  revert w. induction calls as [|c calls IH]; intros w H.
  - exact H.
  - cbn. apply IH. by apply exec_initialized.
Qed.

(** *** Before [init] *)

Lemma read_instance_boot (this : Receiver) (t : Z) :
  read_instance this (boot t) = None.
Proof.
  induction this as [|i n super IH]; cbn [read_instance]; [reflexivity |].
  cbn. by rewrite lookup_empty.
Qed.

(** The guarded methods, called before [init]: each throws
    ['Logger not initialized'] and leaves the world as it was. *)
Lemma guarded_methods_before_init (this : Kino) (that : Receiver)
    (entries : list jsval) (err : jsval)
    (context : option SentryCaptureContext) (uid : string) (w : World) :
  Kino_instance w = None →
  let failed {A} (m : M A) :=
    m w = (w, Throw (Error_ "Logger not initialized")) in
  failed (log this entries) ∧ failed (info this entries)
  ∧ failed (debug this entries) ∧ failed (success this entries)
  ∧ failed (warn this entries) ∧ failed (error this err context)
  ∧ failed (trace this uid context)
  ∧ failed (info_static that entries) ∧ failed (debug_static that entries)
  ∧ failed (success_static that entries) ∧ failed (warn_static that entries)
  ∧ failed (error_static that err context) ∧ failed (trace_static that uid).
Proof.
  intros H failed. unfold failed. repeat split; by apply guarded_None.
Qed.

(** C1 (the code departs from the claim): the static [log] has no guard
    of its own; before [init] it reads the method [log] of [undefined],
    so the call fails with the runtime's [TypeError] and not with
    ['Logger not initialized'], on [Kino] and on every class that
    extends it. *)
Theorem static_log_before_init (this : Receiver) (entries : list jsval)
    (t : Z) :
  log_static this entries (boot t)
  = (boot t,
     Throw (TypeError_ "Cannot read properties of undefined (reading 'log')")).
Proof.
  unfold Kino.log_static, on_instance, this_instance, mbind, M_bind.
  by rewrite read_instance_boot.
Qed.

(** *** [init] *)

(** X18: once [init] has been called on [Kino] itself, whether it
    returned or [Sentry.init] threw, [Kino.instance] stays set through
    every later sequence of calls, and every later call of [init], on
    any class and with any configuration, throws
    ['Logger already initialized'] and changes nothing. *)
Theorem init_on_Kino_only_once (config config' : KinoInitOptions)
    (this' : Receiver) (calls : list Call) (w : World) :
  Kino_instance (run calls (after (init Kino_itself config) w)) ≠ None
  ∧ init this' config' (run calls (after (init Kino_itself config) w))
    = (run calls (after (init Kino_itself config) w),
       Throw (Error_ "Logger already initialized")).
Proof.
  assert (Kino_instance (after (init Kino_itself config) w) ≠ None) as Hset.
  { unfold after. destruct (Kino_instance w) as [k|] eqn:E.
    - rewrite init_Some by congruence. cbn. congruence.
    - rewrite (init_None Sentry_throws Kino_itself config w E). discriminate. }
  pose proof (run_initialized calls _ Hset) as Hrun.
  split; [exact Hrun | by apply init_Some].
Qed.

(** *** [error] *)

(** C3 (amended): on an initialised logger labelled [module this] whose
    locale the date formatter accepts, [error] writes exactly one line,
    with [console.error], and hands the value to
    [Sentry.captureException] exactly once, with the caller's tags plus
    [module] and the caller's extras and user, when Sentry has a client;
    it hands over nothing when Sentry has none.  When the formatter
    rejects the locale, [error] throws its [RangeError] with nothing
    written and nothing captured. *)
Theorem error_one_line_one_capture (this : Kino) (err : jsval)
    (context : option SentryCaptureContext) (w : World) :
  Kino_instance w ≠ None →
  (∀ date,
     toLocaleString (clock w) (Kino_locale w) = Some date →
     let w' := after (error this err context) w in
     outcome (error this err context) w = Return tt
     ∧ console w' = console w ++
         [{| line_writer := console_error;
             line_prefix :=
               chalk red ("[" +:+ date +:+ " - " +:+ module this
                          +:+ " - " +:+ "ERROR" +:+ "]");
             line_text :=
               match err with JStr s => s | _ => util_inspect err 3 true end |}]
     ∧ (Sentry_client w ≠ None →
        Sentry_captured w' = Sentry_captured w ++
          [(err,
            {| tags := Some (<[ "module" := module this ]>
                               (default ∅ (context ≫= tags)));
               extras := context ≫= extras;
               user := context ≫= user |})])
     ∧ (Sentry_client w = None → Sentry_captured w' = Sentry_captured w))
  ∧ (toLocaleString (clock w) (Kino_locale w) = None →
     error this err context w
     = (w, Throw (RangeError_ "Incorrect locale information provided"))).
Proof.
  intros H. split; [| by apply error_RangeError].
  intros date Hd w'. unfold w', outcome, after.
  rewrite (error_eq this err context w date H Hd).
  cbn [fst snd add_captured add_lines console Sentry_captured].
  repeat split.
  - intros Hc. destruct (Sentry_client w); [reflexivity | contradiction].
  - intros Hc. rewrite Hc. apply app_nil_r.
Qed.

(** The static [error] is [error] on [this.instance]. *)
Lemma error_static_eq (this : Receiver) (err : jsval)
    (context : option SentryCaptureContext) (w : World) (k : Kino) :
  Kino_instance w ≠ None →
  read_instance this w = Some k →
  error_static this err context w = error k err context w.
Proof. apply (static_eq this "error" (λ k, error k err context)). Qed.

(** *** [log], [info], [debug], [success], [warn] *)

(** [method] writes one line per entry, each prefixed by a styled text
    that contains the label of the instance and [tag], and gives nothing
    to Sentry, on an initialised logger whose locale the date formatter
    accepts. *)
Definition emits (method : Kino → list jsval → M unit) (tag : string) : Prop :=
  ∀ (this : Kino) (entries : list jsval) (w : World) (date : string),
    Kino_instance w ≠ None →
    toLocaleString (clock w) (Kino_locale w) = Some date →
    let w' := after (method this entries) w in
    outcome (method this entries) w = Return tt
    ∧ (∃ lines,
         console w' = console w ++ lines
         ∧ length lines = length entries
         ∧ Forall (λ l, ∃ style text,
                     line_prefix l = chalk style text
                     ∧ contains (module this) text = true
                     ∧ contains tag text = true) lines)
    ∧ Sentry_captured w' = Sentry_captured w
    ∧ Sentry_client w' = Sentry_client w.

Lemma level_emits (type : LevelKey) :
  emits (λ this entries, check_initialized;; output this type entries)
        (LEVELS type).
Proof.
  intros this entries w date H Hd w'. unfold w', outcome, after.
  rewrite (level_eq this type entries w date H Hd).
  cbn [fst snd add_lines console Sentry_captured Sentry_client].
  split; [reflexivity |]. split; [| split; reflexivity].
  exists (line_of date this type <$> entries).
  split; [reflexivity |]. split; [apply length_fmap |].
  apply Forall_fmap, Forall_forall. intros e _.
  exists (COLORS type), (bracket date this type).
  split; [reflexivity | apply bracket_contains].
Qed.

(** C5 (amended): on an initialised logger whose locale the date
    formatter accepts, each of [log], [info], [debug], [success] and
    [warn] writes exactly one line per value; the prefix of each line is
    a styled text containing the label of the logger and the upper-case
    tag of the level; nothing reaches Sentry. *)
Theorem plain_levels_emit_only :
  emits log "LOG" ∧ emits info "INFO" ∧ emits debug "DEBUG"
  ∧ emits success "SUCCESS" ∧ emits warn "WARN".
Proof.
  split; [| split; [| split; [| split]]].
  - exact (level_emits Klog).
  - exact (level_emits Kinfo).
  - exact (level_emits Kdebug).
  - exact (level_emits Ksuccess).
  - exact (level_emits Kwarn).
Qed.

(** A plain level on a logger whose locale the date formatter rejects:
    the [RangeError] leaves before anything is written. *)
Lemma plain_levels_RangeError (this : Kino) (entries : list jsval) (w : World) :
  Kino_instance w ≠ None →
  toLocaleString (clock w) (Kino_locale w) = None →
  ∀ method, In method [log; info; debug; success; warn] →
    method this entries w
    = (w, Throw (RangeError_ "Incorrect locale information provided")).
Proof.
  intros H Hd method Hin.
  repeat (destruct Hin as [<- | Hin]; [by apply level_RangeError |]).
  destruct Hin.
Qed.

(** *** How a value is shown *)

(** [text] shows [entry]: the string itself, or what [util.inspect]
    prints at depth 3 for a value that is not a string. *)
Definition shown (entry : jsval) (text : string) : Prop :=
  (∀ s, entry = JStr s → text = s)
  ∧ (typeof entry ≠ "string" → text = util_inspect entry 3 true).

Lemma line_of_shown (date : string) (this : Kino) (type : LevelKey)
    (entry : jsval) :
  shown entry (line_text (line_of date this type entry)).
Proof.
  split.
  - intros s ->. reflexivity.
  - intros H. destruct entry; try reflexivity. by destruct H.
Qed.

Lemma level_shown (this : Kino) (type : LevelKey) (entries : list jsval)
    (w : World) (date : string) :
  Kino_instance w ≠ None →
  toLocaleString (clock w) (Kino_locale w) = Some date →
  ∃ lines,
    console (after (check_initialized;; output this type entries) w)
    = console w ++ lines
    ∧ Forall2 (λ entry l, shown entry (line_text l)) entries lines.
Proof.
  intros H Hd. exists (line_of date this type <$> entries). unfold after.
  rewrite (level_eq this type entries w date H Hd). split; [reflexivity |].
  apply Forall2_fmap_r, Forall2_same_length_lookup_2; [reflexivity |].
  intros i x y Hx Hy. rewrite Hx in Hy. injection Hy as <-.
  apply line_of_shown.
Qed.

(** The static [trace] is [trace] on [this.instance], without a
    context. *)
Lemma trace_static_eq (this : Receiver) (uid : string) (w : World) (k : Kino) :
  Kino_instance w ≠ None →
  read_instance this w = Some k →
  trace_static this uid w = trace k uid None w.
Proof. apply (static_eq this "trace" (λ k, trace k uid None)). Qed.

(** A static level method on an initialised logger is the method of
    [this.instance]; this holds for [log] too, which has no guard. *)
Lemma static_levels_eq (this : Receiver) (entries : list jsval) (w : World)
    (k : Kino) :
  Kino_instance w ≠ None →
  read_instance this w = Some k →
  log_static this entries w = log k entries w
  ∧ info_static this entries w = info k entries w
  ∧ debug_static this entries w = debug k entries w
  ∧ success_static this entries w = success k entries w
  ∧ warn_static this entries w = warn k entries w.
Proof.
  intros H E. split; [| split; [| split; [| split]]].
  - by apply (on_instance_Some this "log" (λ k, log k entries)).
  - by apply (static_eq this "info" (λ k, info k entries)).
  - by apply (static_eq this "debug" (λ k, debug k entries)).
  - by apply (static_eq this "success" (λ k, success k entries)).
  - by apply (static_eq this "warn" (λ k, warn k entries)).
Qed.

(** C9 (amended): on an initialised logger whose locale the date
    formatter accepts, the text each logging method prints for a value
    is the value itself when it is a string, and the output of
    [util.inspect] at depth 3 when it is not.  This holds for the five
    plain levels, for [error] and for the closure [trace] returns, in
    their instance and static forms. *)
Theorem values_shown (this : Kino) (w : World) (date : string) :
  Kino_instance w ≠ None →
  toLocaleString (clock w) (Kino_locale w) = Some date →
  (∀ method, In method [log; info; debug; success; warn] →
     ∀ entries, ∃ lines,
       console (after (method this entries) w) = console w ++ lines
       ∧ Forall2 (λ entry l, shown entry (line_text l)) entries lines)
  ∧ (∀ err context, ∃ line,
       console (after (error this err context) w) = console w ++ [line]
       ∧ shown err (line_text line))
  ∧ (∀ uid context, ∃ f,
       outcome (trace this uid context) w = Return f
       ∧ ∀ err, ∃ line,
           console (after (f err) w) = console w ++ [line]
           ∧ shown err (line_text line))
  ∧ (∀ that method,
       In method [log_static that; info_static that; debug_static that;
                  success_static that; warn_static that] →
       ∀ entries, ∃ lines,
         console (after (method entries) w) = console w ++ lines
         ∧ Forall2 (λ entry l, shown entry (line_text l)) entries lines)
  ∧ (∀ that err context, ∃ line,
       console (after (error_static that err context) w) = console w ++ [line]
       ∧ shown err (line_text line))
  ∧ (∀ that uid, ∃ f,
       outcome (trace_static that uid) w = Return f
       ∧ ∀ err, ∃ line,
           console (after (f err) w) = console w ++ [line]
           ∧ shown err (line_text line)).
Proof.
  intros H Hd.
  assert (∀ k err context, ∃ line,
       console (after (error k err context) w) = console w ++ [line]
       ∧ shown err (line_text line)) as Herr.
  { intros k err context. exists (line_of date k Kerror err).
    unfold after. rewrite (error_eq k err context w date H Hd).
    split; [reflexivity | apply line_of_shown]. }
  assert (∀ k uid context, ∃ f,
       outcome (trace k uid context) w = Return f
       ∧ ∀ err, ∃ line,
           console (after (f err) w) = console w ++ [line]
           ∧ shown err (line_text line)) as Htrace.
  { intros k uid context. eexists. unfold outcome.
    rewrite (trace_eq k uid context w H). split; [reflexivity |].
    intros err. apply Herr. }
  split; [| split; [apply Herr | split; [apply Htrace |]]].
  - intros method Hin entries.
    repeat (destruct Hin as [<- | Hin]; [by apply (level_shown _ _ _ _ date) |]).
    destruct Hin.
  - split; [| split].
    + intros that method Hin entries. unfold after.
      destruct (read_instance_Some that w H) as [k E].
      destruct (static_levels_eq that entries w k H E)
        as (E1 & E2 & E3 & E4 & E5).
      destruct Hin as [<- | [<- | [<- | [<- | [<- | []]]]]];
        [rewrite E1 | rewrite E2 | rewrite E3 | rewrite E4 | rewrite E5];
        by apply (level_shown _ _ _ _ date).
    + intros that err context. unfold after.
      destruct (read_instance_Some that w H) as [k E].
      rewrite (error_static_eq that err context w k H E). apply Herr.
    + intros that uid. unfold outcome.
      destruct (read_instance_Some that w H) as [k E].
      rewrite (trace_static_eq that uid w k H E). apply (Htrace k uid None).
Qed.

(** *** [trace] *)

(** C4: on an initialised logger, [trace uid context] returns a function
    and leaves the world untouched; the function applied to a value is
    [error] applied to that value and to the caller's context with the
    tag [trace_uid] set to [uid]; without a context, that is
    [error(V, {tags: {trace_uid: uid}})]. *)
Theorem trace_defers_error (this : Kino) (uid : string)
    (context : option SentryCaptureContext) (w : World) :
  Kino_instance w ≠ None →
  ∃ f : jsval → M unit,
    trace this uid context w = (w, Return f)
    ∧ (∀ err,
         f err
         = error this err
             (Some {| tags := Some (<[ "trace_uid" := uid ]>
                                      (default ∅ (context ≫= tags)));
                      extras := context ≫= extras;
                      user := context ≫= user |}))
    ∧ (context = None →
       ∀ err,
         f err
         = error this err
             (Some {| tags := Some {[ "trace_uid" := uid ]};
                      extras := None; user := None |})).
Proof.
  intros H. eexists. split; [by apply trace_eq |].
  split; [reflexivity |]. intros -> err. unfold traced. cbn.
  by rewrite insert_empty.
Qed.

(** *** Tags *)

Lemma forwarded_tags (label : string) (context : option SentryCaptureContext) :
  ∃ T, tags (forwarded label context) = Some T
       ∧ T !! "module" = Some label
       ∧ ∀ k, k ≠ "module" → T !! k = default ∅ (context ≫= tags) !! k.
Proof.
  eexists. split; [reflexivity |]. split.
  - apply lookup_insert_eq.
  - intros k Hk. by apply lookup_insert_ne.
Qed.

(** What [error] hands to Sentry when Sentry has a client: the value
    with the forwarded context, or nothing when the date formatter
    rejects the locale. *)
Lemma error_captured (this : Kino) (err : jsval)
    (context : option SentryCaptureContext) (w : World) :
  Kino_instance w ≠ None →
  Sentry_client w ≠ None →
  (Sentry_captured (after (error this err context) w)
   = Sentry_captured w ++ [(err, forwarded (module this) context)]
   ∨ Sentry_captured (after (error this err context) w) = Sentry_captured w)
  ∧ (∀ date,
       toLocaleString (clock w) (Kino_locale w) = Some date →
       Sentry_captured (after (error this err context) w)
       = Sentry_captured w ++ [(err, forwarded (module this) context)]).
Proof.
  intros H Hc.
  assert (∀ date,
       toLocaleString (clock w) (Kino_locale w) = Some date →
       Sentry_captured (after (error this err context) w)
       = Sentry_captured w ++ [(err, forwarded (module this) context)]) as Hok.
  { intros date Hd. unfold after. rewrite (error_eq this err context w date H Hd).
    cbn. destruct (Sentry_client w); [reflexivity | contradiction]. }
  split; [| exact Hok].
  destruct (toLocaleString (clock w) (Kino_locale w)) as [date|] eqn:Hd.
  - left. by apply (Hok date).
  - right. unfold after. by rewrite (error_RangeError this err context w H Hd).
Qed.

(** C10: in the context handed to Sentry, [error] sets the tag [module]
    to the label of the instance whatever the caller supplied under that
    name; the closure of [trace uid] moreover sets [trace_uid] to [uid]
    whatever the caller supplied; every other tag of the caller arrives
    unchanged.  Such a context is the only thing [error] hands over, and
    it does hand it over when the date formatter accepts the locale. *)
Theorem facade_tags_take_precedence (this : Kino) (err : jsval)
    (context : option SentryCaptureContext) (uid : string) (w : World) :
  Kino_instance w ≠ None →
  Sentry_client w ≠ None →
  let caller : gmap string string := default ∅ (context ≫= tags) in
  (∃ sent T,
     (Sentry_captured (after (error this err context) w)
      = Sentry_captured w ++ [(err, sent)]
      ∨ Sentry_captured (after (error this err context) w) = Sentry_captured w)
     ∧ (∀ date,
          toLocaleString (clock w) (Kino_locale w) = Some date →
          Sentry_captured (after (error this err context) w)
          = Sentry_captured w ++ [(err, sent)])
     ∧ tags sent = Some T
     ∧ T !! "module" = Some (module this)
     ∧ ∀ k, k ≠ "module" → T !! k = caller !! k)
  ∧ (∃ f sent T,
       outcome (trace this uid context) w = Return f
       ∧ (Sentry_captured (after (f err) w) = Sentry_captured w ++ [(err, sent)]
          ∨ Sentry_captured (after (f err) w) = Sentry_captured w)
       ∧ (∀ date,
            toLocaleString (clock w) (Kino_locale w) = Some date →
            Sentry_captured (after (f err) w)
            = Sentry_captured w ++ [(err, sent)])
       ∧ tags sent = Some T
       ∧ T !! "trace_uid" = Some uid
       ∧ T !! "module" = Some (module this)
       ∧ ∀ k, k ≠ "module" → k ≠ "trace_uid" → T !! k = caller !! k).
Proof.
  intros H Hc caller. split.
  - destruct (forwarded_tags (module this) context) as (T & HT & Hm & Ho).
    destruct (error_captured this err context w H Hc) as [Hor Hok].
    by exists (forwarded (module this) context), T.
  - destruct (error_captured this err (Some (traced uid context)) w H Hc)
      as [Hor Hok].
    eexists _, (forwarded (module this) (Some (traced uid context))), _.
    split; [unfold outcome; by rewrite (trace_eq this uid context w H) |].
    split; [exact Hor |]. split; [exact Hok |].
    split; [reflexivity |]. cbn.
    split; [by rewrite lookup_insert_ne, lookup_insert_eq |].
    split; [apply lookup_insert_eq |].
    intros k Hk Hk'. by rewrite !lookup_insert_ne.
Qed.

(** *** The listeners of [init] *)

(** Each listener does to the world what [Kino.error(x)] does, and
    returns normally when [Kino.error(x)] does. *)
Lemma call_listener_error (l : Listener) (x : jsval) (w : World) :
  after (call_listener l x) w = after (error_static Kino_itself x None) w
  ∧ (outcome (error_static Kino_itself x None) w = Return tt →
     outcome (call_listener l x) w = Return tt).
Proof. destruct l; split; done. Qed.

(** C7 (amended): [init], called before [Kino.instance] is set, returns
    unless [Sentry.init] throws.  With [autoCaptureUnhandledRejections]
    set, an [init] that returns has registered a listener for
    [unhandledRejection] and one for [uncaughtException], each doing
    what [Kino.error] does; with the flag absent or false, or when
    [init] throws, no listener is registered.  When [init] is given a Sentry configuration with no
    [integrations] and no [defaultIntegrations] option of its own,
    [Sentry.init] receives [defaultIntegrations: false] and a list that
    has neither of the SDK's two integrations when the flag is set and
    both when it is not.  Without a Sentry configuration [Sentry.init]
    is not called. *)
Theorem auto_capture_excludes_sdk (this : Receiver)
    (config : KinoInitOptions) (w : World) :
  Kino_instance w = None →
  let w' := after (init this config) w in
  let sdk_passed :=
    passed_to_Sentry onUncaughtExceptionIntegration w'
    ∧ passed_to_Sentry onUnhandledRejectionIntegration w' in
  let sdk_absent :=
    ¬ passed_to_Sentry onUncaughtExceptionIntegration w'
    ∧ ¬ passed_to_Sentry onUnhandledRejectionIntegration w' in
  (sentry config = None → outcome (init this config) w = Return tt)
  ∧ (∀ config_sentry,
       sentry config = Some config_sentry →
       Sentry_throws (Sentry_options config_sentry (integrations config)) = None →
       outcome (init this config) w = Return tt)
  ∧ (outcome (init this config) w = Return tt →
   autoCaptureUnhandledRejections config = Some true →
   process_listeners w'
   = process_listeners w ++
       [("unhandledRejection", unhandledRejection_listener);
        ("uncaughtException", uncaughtException_listener)])
  ∧ (autoCaptureUnhandledRejections config ≠ Some true →
     process_listeners w' = process_listeners w)
  ∧ (∀ e, outcome (init this config) w = Throw e →
       process_listeners w' = process_listeners w)
  ∧ (∀ l x w1,
       after (call_listener l x) w1
       = after (error_static Kino_itself x None) w1
       ∧ (outcome (error_static Kino_itself x None) w1 = Return tt →
          outcome (call_listener l x) w1 = Return tt))
  ∧ (∀ config_sentry,
       sentry config = Some config_sentry →
       config_sentry !! "integrations" = None →
       config_sentry !! "defaultIntegrations" = None →
       (∃ options,
          last (Sentry_inits w') = Some options
          ∧ options !! "defaultIntegrations" = Some (JBool false))
       ∧ (autoCaptureUnhandledRejections config = Some true → sdk_absent)
       ∧ (autoCaptureUnhandledRejections config ≠ Some true → sdk_passed))
  ∧ (sentry config = None →
     Sentry_inits w' = Sentry_inits w ∧ Sentry_client w' = Sentry_client w).
Proof.
  intros Hw w' sdk_passed sdk_absent. unfold sdk_passed, sdk_absent, w'.
  unfold outcome, after. rewrite (init_None Sentry_throws this config w Hw).
  cbn [fst snd].
  split; [| split; [| split; [| split; [| split; [| split; [| split]]]]]].
  - intros Hs. unfold init_throws. by rewrite Hs.
  - intros config_sentry Hs Hok. unfold init_throws. by rewrite Hs, Hok.
  - intros Hok Hflag. cbn.
    destruct (init_throws Sentry_throws config); [discriminate Hok |].
    by rewrite Hflag.
  - intros Hflag. cbn.
    destruct (init_throws Sentry_throws config); [apply app_nil_r |].
    destruct (autoCaptureUnhandledRejections config) as [[|]|];
      [by destruct Hflag | apply app_nil_r ..].
  - intros e He. cbn.
    destruct (init_throws Sentry_throws config); [apply app_nil_r | discriminate He].
  - intros l x w1. apply call_listener_error.
  - intros config_sentry Hs Hi Hdi.
    pose proof (init_passed Sentry_throws this config config_sentry w) as Hp.
    unfold after in Hp. rewrite (init_None Sentry_throws this config w Hw) in Hp.
    cbn [fst] in Hp.
    split.
    + eexists. cbn. rewrite Hs, last_snoc. split; [reflexivity |].
      unfold Sentry_options, spread, prop.
      rewrite (lookup_union_r _ _ _ Hdi), Hdi. cbn.
      rewrite !lookup_insert_ne by done.
      rewrite lookup_union_l by done. apply lookup_singleton_eq.
    + rewrite !(Hp _ Hw Hs Hi).
      destruct (sdk_handlers_assembled config) as [Hoff Hon]. by split.
  - intros Hs. unfold init_world, init_throws. cbn. rewrite Hs.
    split; [apply app_nil_r | reflexivity].
Qed.

End Facts.

(** ** Concrete runs *)

(** [{}] *)
Definition no_options : KinoInitOptions :=
  {| sentry := None; packages := None; ANR := None;
     defaultIntanceTitle := None; locale := None;
     autoCaptureUnhandledRejections := None |}.

(** [{ packages: ['knex'] }] *)
Definition only_knex : KinoInitOptions :=
  {| sentry := None; packages := Some ["knex"]; ANR := None;
     defaultIntanceTitle := None; locale := None;
     autoCaptureUnhandledRejections := None |}.

(** [{ sentry: { dsn: 'https://k@s.example/1', maxBreadcrumbs: 20 },
       packages: ['knex'], autoCaptureUnhandledRejections: true }] *)
Definition with_sentry : KinoInitOptions :=
  {| sentry := Some {[ "dsn" := JStr "https://k@s.example/1";
                       "maxBreadcrumbs" := JNum (20 # 1) ]};
     packages := Some ["knex"]; ANR := None;
     defaultIntanceTitle := Some "App"; locale := None;
     autoCaptureUnhandledRejections := Some true |}.

(** [{ locale: 'en_US' }]: a locale the date formatter rejects. *)
Definition underscored : KinoInitOptions :=
  {| sentry := None; packages := None; ANR := None;
     defaultIntanceTitle := None; locale := Some "en_US";
     autoCaptureUnhandledRejections := None |}.

(** [{ autoCaptureUnhandledRejections: true }] *)
Definition capturing : KinoInitOptions :=
  {| sentry := None; packages := None; ANR := None;
     defaultIntanceTitle := None; locale := None;
     autoCaptureUnhandledRejections := Some true |}.

(** [class Sub extends Kino {}] *)
Definition Sub : Receiver := Subclass 1 "Sub" Kino_itself.

(** The process after [Kino.init({})], after [Kino.init(with_sentry)]
    and after [Kino.init({ locale: 'en_US' })]. *)
Definition ready : World := after (init sample_Sentry Kino_itself no_options) (boot 0).
Definition reporting : World :=
  after (init sample_Sentry Kino_itself with_sentry) (boot 0).
Definition misformatted : World :=
  after (init sample_Sentry Kino_itself underscored) (boot 0).

(** [{ tags: { module: 'mine', shard: '7' }, user: { id: '1', username: 'ann' } }] *)
Definition caller_context : SentryCaptureContext :=
  {| tags := Some {[ "module" := "mine"; "shard" := "7" ]};
     extras := None;
     user := Some {| id := "1"; username := "ann" |} |}.

(** The methods on the sample collaborators, and a logger to call them on. *)
Definition Db : Kino := new_Kino "Db".
Definition sample_log := log sample_date sample_chalk sample_inspect.
Definition sample_warn := warn sample_date sample_chalk sample_inspect.
Definition sample_error := error sample_date sample_chalk sample_inspect.
Definition sample_trace := trace sample_date sample_chalk sample_inspect.

(** The two listeners of [init], as [process.on] received them. *)
Definition both_listeners : list (string * Listener) :=
  [("unhandledRejection", unhandledRejection_listener);
   ("uncaughtException", uncaughtException_listener)].

(** C2 (the code departs from the claim): the guard of [init] reads
    [Kino.instance] but the assignment goes to [this.instance], so on a
    class that extends [Kino] the guard never trips: [Sub.init] called
    twice returns twice, [Kino.instance] is still unset, and the
    listeners are registered twice. *)
Theorem init_repeats_on_subclass
    (Sentry_throws : gmap string jsval → option Exception) (t : Z) :
  outcome (init Sentry_throws Sub capturing;; init Sentry_throws Sub capturing)
    (boot t)
  = Return tt
  ∧ Kino_instance
      (after (init Sentry_throws Sub capturing;;
              init Sentry_throws Sub capturing) (boot t))
    = None
  ∧ process_listeners
      (after (init Sentry_throws Sub capturing;;
              init Sentry_throws Sub capturing) (boot t))
    = both_listeners ++ both_listeners.
Proof.
  unfold outcome, after.
  rewrite (bind_Return _ _ _ _ _
             (init_None Sentry_throws Sub capturing (boot t) eq_refl)).
  rewrite (init_None Sentry_throws Sub capturing
             (init_world Sentry_throws Sub capturing (boot t)) eq_refl).
  repeat split.
Qed.

(** [Kino.init({ locale: 'en_US' })], then [logger.error('boom')]: the
    date formatter rejects the locale, and no line is written. *)
Lemma error_writes_nothing_on_rejected_locale :
  Kino_instance misformatted ≠ None
  ∧ sample_error Db (JStr "boom") None misformatted
    = (misformatted,
       Throw (RangeError_ "Incorrect locale information provided")).
Proof. split; [discriminate | reflexivity]. Qed.

Lemma error_one_line_one_capture_witness :
  (∀ date,
     sample_date (clock reporting) (Kino_locale reporting) = Some date →
     outcome (sample_error Db (JStr "boom") (Some caller_context)) reporting
     = Return tt
     ∧ console (after (sample_error Db (JStr "boom") (Some caller_context))
                  reporting)
       = console reporting ++
           [{| line_writer := console_error;
               line_prefix :=
                 sample_chalk red ("[" +:+ date +:+ " - " +:+ "Db"
                                   +:+ " - " +:+ "ERROR" +:+ "]");
               line_text := "boom" |}]
     ∧ (Sentry_client reporting ≠ None →
        Sentry_captured
          (after (sample_error Db (JStr "boom") (Some caller_context)) reporting)
        = Sentry_captured reporting ++
            [(JStr "boom",
              {| tags := Some (<[ "module" := "Db" ]>
                                 {[ "module" := "mine"; "shard" := "7" ]});
                 extras := None;
                 user := Some {| id := "1"; username := "ann" |} |})])
     ∧ (Sentry_client reporting = None →
        Sentry_captured
          (after (sample_error Db (JStr "boom") (Some caller_context)) reporting)
        = Sentry_captured reporting))
  ∧ (sample_date (clock reporting) (Kino_locale reporting) = None →
     sample_error Db (JStr "boom") (Some caller_context) reporting
     = (reporting,
        Throw (RangeError_ "Incorrect locale information provided"))).
Proof.
  apply (error_one_line_one_capture sample_date sample_chalk sample_inspect
           Db (JStr "boom") (Some caller_context) reporting).
  discriminate.
Defined.

(** The line and the capture of that call. *)
Example run_error_reporting :
  console (after (sample_error Db (JStr "boom") (Some caller_context)) reporting)
  = [{| line_writer := console_error;
        line_prefix := "[01/02/2025, 03:04:05 (en-US) - Db - ERROR]";
        line_text := "boom" |}]
  ∧ length (Sentry_captured
              (after (sample_error Db (JStr "boom") (Some caller_context))
                 reporting))
    = 1%nat.
Proof. split; reflexivity. Qed.

Lemma trace_defers_error_witness :
  ∃ f : jsval → M unit,
    sample_trace Db "u-1" None ready = (ready, Return f)
    ∧ (∀ err,
         f err
         = sample_error Db err
             (Some {| tags := Some (<[ "trace_uid" := "u-1" ]>
                                      (default ∅ (@None SentryCaptureContext ≫= tags)));
                      extras := @None SentryCaptureContext ≫= extras;
                      user := @None SentryCaptureContext ≫= user |}))
    ∧ (@None SentryCaptureContext = None →
       ∀ err,
         f err
         = sample_error Db err
             (Some {| tags := Some {[ "trace_uid" := "u-1" ]};
                      extras := None; user := None |})).
Proof.
  apply (trace_defers_error sample_date sample_chalk sample_inspect
           Db "u-1" None ready).
  discriminate.
Defined.

(** [Kino.init({ locale: 'en_US' })], then [logger.warn('slow', null)]:
    no line is written for either value. *)
Lemma warn_writes_nothing_on_rejected_locale :
  Kino_instance misformatted ≠ None
  ∧ sample_warn Db [JStr "slow"; JNull] misformatted
    = (misformatted,
       Throw (RangeError_ "Incorrect locale information provided")).
Proof. split; [discriminate | reflexivity]. Qed.

Lemma plain_levels_emit_only_witness :
  outcome (sample_warn Db [JStr "slow"; JNull]) ready = Return tt
  ∧ (∃ lines,
       console (after (sample_warn Db [JStr "slow"; JNull]) ready)
       = console ready ++ lines
       ∧ length lines = 2%nat
       ∧ Forall (λ l, ∃ style text,
                   line_prefix l = sample_chalk style text
                   ∧ contains "Db" text = true
                   ∧ contains "WARN" text = true) lines)
  ∧ Sentry_captured (after (sample_warn Db [JStr "slow"; JNull]) ready)
    = Sentry_captured ready
  ∧ Sentry_client (after (sample_warn Db [JStr "slow"; JNull]) ready)
    = Sentry_client ready.
Proof.
  apply (proj2 (proj2 (proj2 (proj2
           (plain_levels_emit_only sample_date sample_chalk sample_inspect))))
           Db [JStr "slow"; JNull] ready "01/02/2025, 03:04:05 (en-US)").
  - discriminate.
  - reflexivity.
Defined.

(** [Kino.init({ locale: 'en_US' })], then [logger.log('x')]: the string
    is not printed. *)
Lemma string_not_printed_on_rejected_locale :
  Kino_instance misformatted ≠ None
  ∧ sample_log Db [JStr "x"] misformatted
    = (misformatted,
       Throw (RangeError_ "Incorrect locale information provided")).
Proof. split; [discriminate | reflexivity]. Qed.

Lemma values_shown_witness :
  (∀ method,
     In method [log sample_date sample_chalk sample_inspect;
                info sample_date sample_chalk sample_inspect;
                debug sample_date sample_chalk sample_inspect;
                success sample_date sample_chalk sample_inspect;
                warn sample_date sample_chalk sample_inspect] →
     ∀ entries, ∃ lines,
       console (after (method Db entries) ready) = console ready ++ lines
       ∧ Forall2 (λ entry l, shown sample_inspect entry (line_text l))
           entries lines)
  ∧ (∀ err context, ∃ line,
       console (after (sample_error Db err context) ready)
       = console ready ++ [line]
       ∧ shown sample_inspect err (line_text line))
  ∧ (∀ uid context, ∃ f,
       outcome (sample_trace Db uid context) ready = Return f
       ∧ ∀ err, ∃ line,
           console (after (f err) ready) = console ready ++ [line]
           ∧ shown sample_inspect err (line_text line))
  ∧ (∀ that method,
       In method [log_static sample_date sample_chalk sample_inspect that;
                  info_static sample_date sample_chalk sample_inspect that;
                  debug_static sample_date sample_chalk sample_inspect that;
                  success_static sample_date sample_chalk sample_inspect that;
                  warn_static sample_date sample_chalk sample_inspect that] →
       ∀ entries, ∃ lines,
         console (after (method entries) ready) = console ready ++ lines
         ∧ Forall2 (λ entry l, shown sample_inspect entry (line_text l))
             entries lines)
  ∧ (∀ that err context, ∃ line,
       console (after (error_static sample_date sample_chalk sample_inspect
                         that err context) ready)
       = console ready ++ [line]
       ∧ shown sample_inspect err (line_text line))
  ∧ (∀ that uid, ∃ f,
       outcome (trace_static sample_date sample_chalk sample_inspect that uid)
         ready
       = Return f
       ∧ ∀ err, ∃ line,
           console (after (f err) ready) = console ready ++ [line]
           ∧ shown sample_inspect err (line_text line)).
Proof.
  apply (values_shown sample_date sample_chalk sample_inspect Db ready
           "01/02/2025, 03:04:05 (en-US)").
  - discriminate.
  - reflexivity.
Defined.

Lemma facade_tags_take_precedence_witness :
  (∃ sent T,
     (Sentry_captured
        (after (sample_error Db (JStr "boom") (Some caller_context)) reporting)
      = Sentry_captured reporting ++ [(JStr "boom", sent)]
      ∨ Sentry_captured
          (after (sample_error Db (JStr "boom") (Some caller_context)) reporting)
        = Sentry_captured reporting)
     ∧ (∀ date,
          sample_date (clock reporting) (Kino_locale reporting) = Some date →
          Sentry_captured
            (after (sample_error Db (JStr "boom") (Some caller_context))
               reporting)
          = Sentry_captured reporting ++ [(JStr "boom", sent)])
     ∧ tags sent = Some T
     ∧ T !! "module" = Some "Db"
     ∧ ∀ k, k ≠ "module" →
            T !! k = ({[ "module" := "mine"; "shard" := "7" ]}
                        : gmap string string) !! k)
  ∧ (∃ f sent T,
       outcome (sample_trace Db "u-1" (Some caller_context)) reporting
       = Return f
       ∧ (Sentry_captured (after (f (JStr "boom")) reporting)
          = Sentry_captured reporting ++ [(JStr "boom", sent)]
          ∨ Sentry_captured (after (f (JStr "boom")) reporting)
            = Sentry_captured reporting)
       ∧ (∀ date,
            sample_date (clock reporting) (Kino_locale reporting) = Some date →
            Sentry_captured (after (f (JStr "boom")) reporting)
            = Sentry_captured reporting ++ [(JStr "boom", sent)])
       ∧ tags sent = Some T
       ∧ T !! "trace_uid" = Some "u-1"
       ∧ T !! "module" = Some "Db"
       ∧ ∀ k, k ≠ "module" → k ≠ "trace_uid" →
              T !! k = ({[ "module" := "mine"; "shard" := "7" ]}
                          : gmap string string) !! k).
Proof.
  apply (facade_tags_take_precedence sample_date sample_chalk sample_inspect
           Db (JStr "boom") (Some caller_context) "u-1" reporting);
    discriminate.
Defined.

(** The Sentry options of [with_sentry]. *)
Definition sample_sentry : gmap string jsval :=
  {[ "dsn" := JStr "https://k@s.example/1"; "maxBreadcrumbs" := JNum (20 # 1) ]}.

(** [Kino.init({ packages: ['knex'] })]: no Sentry configuration, so no
    call of [Sentry.init] and no list for the knex integration to be in. *)
Lemma knex_without_sentry_not_passed :
  ¬ passed_to_Sentry knexIntegration
      (after (init sample_Sentry Kino_itself only_knex) (boot 0)).
Proof. intros (options & l & H & _). discriminate H. Qed.

Lemma packages_select_integrations_witness :
  (passed_to_Sentry knexIntegration
     (after (init sample_Sentry Kino_itself with_sentry) (boot 0))
   ↔ ∃ p, packages with_sentry = Some p ∧ "knex" ∈ p)
  ∧ (passed_to_Sentry mysql2Integration
       (after (init sample_Sentry Kino_itself with_sentry) (boot 0))
     ↔ ∃ p, packages with_sentry = Some p ∧ "mysql2" ∈ p)
  ∧ (packages with_sentry = None →
     ¬ passed_to_Sentry knexIntegration
         (after (init sample_Sentry Kino_itself with_sentry) (boot 0))
     ∧ ¬ passed_to_Sentry mysql2Integration
           (after (init sample_Sentry Kino_itself with_sentry) (boot 0))).
Proof.
  apply (packages_select_integrations sample_Sentry Kino_itself with_sentry
           sample_sentry (boot 0));
    reflexivity.
Defined.

(** [Kino.init({})]: the flag is omitted, and the SDK's integration for
    uncaught exceptions is handed to nobody. *)
Lemma sdk_without_sentry_not_passed :
  ¬ passed_to_Sentry onUncaughtExceptionIntegration
      (after (init sample_Sentry Kino_itself no_options) (boot 0)).
Proof. intros (options & l & H & _). discriminate H. Qed.

Lemma auto_capture_excludes_sdk_witness :
  (sentry with_sentry = None →
   outcome (init sample_Sentry Kino_itself with_sentry) (boot 0) = Return tt)
  ∧ (∀ config_sentry,
       sentry with_sentry = Some config_sentry →
       sample_Sentry (Sentry_options config_sentry (integrations with_sentry))
       = None →
       outcome (init sample_Sentry Kino_itself with_sentry) (boot 0) = Return tt)
  ∧ (outcome (init sample_Sentry Kino_itself with_sentry) (boot 0) = Return tt →
   autoCaptureUnhandledRejections with_sentry = Some true →
   process_listeners (after (init sample_Sentry Kino_itself with_sentry) (boot 0))
   = process_listeners (boot 0) ++
       [("unhandledRejection", unhandledRejection_listener);
        ("uncaughtException", uncaughtException_listener)])
  ∧ (autoCaptureUnhandledRejections with_sentry ≠ Some true →
     process_listeners (after (init sample_Sentry Kino_itself with_sentry) (boot 0))
     = process_listeners (boot 0))
  ∧ (∀ e, outcome (init sample_Sentry Kino_itself with_sentry) (boot 0) = Throw e →
       process_listeners
         (after (init sample_Sentry Kino_itself with_sentry) (boot 0))
       = process_listeners (boot 0))
  ∧ (∀ l x w1,
       after (call_listener sample_date sample_chalk sample_inspect l x) w1
       = after (error_static sample_date sample_chalk sample_inspect
                  Kino_itself x None) w1
       ∧ (outcome (error_static sample_date sample_chalk sample_inspect
                     Kino_itself x None) w1 = Return tt →
          outcome (call_listener sample_date sample_chalk sample_inspect l x) w1
          = Return tt))
  ∧ (∀ config_sentry,
       sentry with_sentry = Some config_sentry →
       config_sentry !! "integrations" = None →
       config_sentry !! "defaultIntegrations" = None →
       (∃ options,
          last (Sentry_inits
                  (after (init sample_Sentry Kino_itself with_sentry) (boot 0)))
          = Some options
          ∧ options !! "defaultIntegrations" = Some (JBool false))
       ∧ (autoCaptureUnhandledRejections with_sentry = Some true →
          ¬ passed_to_Sentry onUncaughtExceptionIntegration
              (after (init sample_Sentry Kino_itself with_sentry) (boot 0))
          ∧ ¬ passed_to_Sentry onUnhandledRejectionIntegration
                (after (init sample_Sentry Kino_itself with_sentry) (boot 0)))
       ∧ (autoCaptureUnhandledRejections with_sentry ≠ Some true →
          passed_to_Sentry onUncaughtExceptionIntegration
            (after (init sample_Sentry Kino_itself with_sentry) (boot 0))
          ∧ passed_to_Sentry onUnhandledRejectionIntegration
              (after (init sample_Sentry Kino_itself with_sentry) (boot 0))))
  ∧ (sentry with_sentry = None →
     Sentry_inits (after (init sample_Sentry Kino_itself with_sentry) (boot 0))
     = Sentry_inits (boot 0)
     ∧ Sentry_client (after (init sample_Sentry Kino_itself with_sentry) (boot 0))
       = Sentry_client (boot 0)).
Proof.
  apply (auto_capture_excludes_sdk sample_date sample_chalk sample_inspect
           sample_Sentry Kino_itself with_sentry (boot 0)).
  reflexivity.
Defined.

(** [Kino.init(with_sentry)] returns, with both listeners registered. *)
Example run_with_sentry_listeners :
  outcome (init sample_Sentry Kino_itself with_sentry) (boot 0) = Return tt
  ∧ process_listeners reporting = both_listeners.
Proof. split; vm_compute; reflexivity. Qed.

Lemma sentry_defaults_overridable_witness :
  ∃ options,
    last (Sentry_inits (after (init sample_Sentry Kino_itself with_sentry) (boot 0)))
    = Some options
    ∧ (sample_Sentry options = None →
       Sentry_client (after (init sample_Sentry Kino_itself with_sentry) (boot 0))
       = Some options)
    ∧ (∀ k v, sample_sentry !! k = Some v → options !! k = Some v)
    ∧ (sample_sentry !! "tracesSampleRate" = None →
       options !! "tracesSampleRate" = Some (JNum (1 # 10)))
    ∧ (sample_sentry !! "maxBreadcrumbs" = None →
       options !! "maxBreadcrumbs" = Some (JNum (5 # 1)))
    ∧ (sample_sentry !! "sendClientReports" = None →
       options !! "sendClientReports" = Some (JBool false)).
Proof.
  apply (sentry_defaults_overridable sample_Sentry Kino_itself with_sentry
           sample_sentry (boot 0));
    reflexivity.
Defined.

(** What [Sentry.init] receives for [with_sentry]: the caller's
    [maxBreadcrumbs] and [dsn], the defaults for the rest. *)
Example run_with_sentry_options :
  Sentry_client reporting
  = Some {[ "dsn" := JStr "https://k@s.example/1";
            "maxBreadcrumbs" := JNum (20 # 1);
            "tracesSampleRate" := JNum (1 # 10);
            "defaultIntegrations" := JBool false;
            "sendClientReports" := JBool false;
            "integrations" :=
              JArr (JIntegration <$>
                      baseline ++ [knexIntegration]) ]}.
Proof. vm_compute. reflexivity. Qed.

(** [{ sentry: { defaultIntegrations: true },
       autoCaptureUnhandledRejections: true }]: [Sentry.init] throws, so
    [init] stops with [Kino.instance] set, no client and no listener. *)
Example run_init_stopped_by_Sentry :
  let config :=
    {| sentry := Some {[ "defaultIntegrations" := JBool true ]};
       packages := None; ANR := None; defaultIntanceTitle := None;
       locale := None; autoCaptureUnhandledRejections := Some true |} in
  outcome (init sample_Sentry Kino_itself config) (boot 0)
  = Throw (TypeError_ "options.defaultIntegrations is not iterable")
  ∧ Kino_instance (after (init sample_Sentry Kino_itself config) (boot 0))
    = Some (new_Kino "GLOBAL")
  ∧ Sentry_client (after (init sample_Sentry Kino_itself config) (boot 0)) = None
  ∧ process_listeners (after (init sample_Sentry Kino_itself config) (boot 0))
    = [].
Proof. vm_compute. repeat split. Qed.

(** * KinoLoggedClass.ts

    The base class gives every class that extends it a [logger], built
    on first use from the name of the class and kept in the static
    property [_logger]. *)

Module KinoLoggedClass.

(** A class: [KinoLoggedClass] itself ([Base]) or a class that extends
    one.  [id] tells apart two classes declared with the same name. *)
Inductive Class : Type :=
| Base
| Extends (id : positive) (name : string) (super : Class).

(** [C.name] *)
Definition name (c : Class) : string :=
  match c with
  | Base => "KinoLoggedClass"
  | Extends _ n _ => n
  end.

(** The class and its superclasses, nearest first: the prototype chain
    of the constructor. *)
Fixpoint lineage (c : Class) : list Class :=
  c :: match c with
       | Base => []
       | Extends _ _ super => lineage super
       end.

Fixpoint to_chain (c : Class) : list (positive * string) :=
  match c with
  | Base => []
  | Extends i n super => (i, n) :: to_chain super
  end.

Fixpoint of_chain (l : list (positive * string)) : Class :=
  match l with
  | [] => Base
  | (i, n) :: l' => Extends i n (of_chain l')
  end.

Lemma of_to_chain (c : Class) : of_chain (to_chain c) = c.
Proof. induction c as [|i n super IH]; cbn; [reflexivity | by rewrite IH]. Qed.

#[global] Instance Class_eq_dec : EqDecision Class.
Proof. solve_decision. Defined.

#[global] Instance Class_countable : Countable Class :=
  inj_countable' to_chain of_chain of_to_chain.

(** Reading [C._logger], given the own [_logger] property of each class
    that has one: a static property that [C] lacks is looked up in its
    superclass. *)
Fixpoint _logger (c : Class) (own : gmap Class Kino) : option Kino :=
  match own !! c with
  | Some k => Some k
  | None =>
      match c with
      | Base => None
      | Extends _ _ super => _logger super own
      end
  end.

(** [protected static get logger()], with [this] the class it is read
    on.  The assignment creates an own property on [this]. *)
Definition logger_static (this : Class) (own : gmap Class Kino) :
    gmap Class Kino * option Kino :=
  let own :=
    match _logger this own with
    | None => <[ this := new_Kino (name this) ]> own
    | Some _ => own
    end in
  (own, _logger this own).

(** [protected get logger()], with [constructor] the class of the
    instance it is read on ([this.constructor]). *)
Definition logger (constructor : Class) (own : gmap Class Kino) :
    gmap Class Kino * option Kino :=
  let own :=
    match _logger constructor own with
    | None => <[ constructor := new_Kino (name constructor) ]> own
    | Some _ => own
    end in
  (own, _logger constructor own).

(** One read of a [logger] getter. *)
Inductive Access : Type :=
| read_static (this : Class)
| read_instance (constructor : Class).

Definition access (a : Access) (own : gmap Class Kino) : gmap Class Kino :=
  match a with
  | read_static this => fst (logger_static this own)
  | read_instance constructor => fst (logger constructor own)
  end.

(** The [_logger] properties after a sequence of reads in a program
    where no class had one. *)
Definition accesses (l : list Access) : gmap Class Kino :=
  foldl (λ own a, access a own) ∅ l.

(** ** Facts about the prototype chain *)

Lemma lineage_self (c : Class) : c ∈ lineage c.
Proof. destruct c; cbn; apply list_elem_of_here. Qed.

Lemma lineage_depth (c a : Class) :
  a ∈ lineage c → (length (to_chain a) ≤ length (to_chain c))%nat.
Proof.
  induction c as [|i n super IH]; cbn; intros H.
  - apply list_elem_of_singleton in H as ->. reflexivity.
  - apply elem_of_cons in H as [-> | H]; [reflexivity |].
    specialize (IH H). lia.
Qed.

(** A class is not among its own superclasses. *)
Lemma not_in_super_lineage (i : positive) (n : string) (super : Class) :
  Extends i n super ∉ lineage super.
Proof. intros H. apply lineage_depth in H. cbn in H. lia. Qed.

Lemma _logger_insert (c : Class) (k : Kino) (own : gmap Class Kino) :
  _logger c (<[ c := k ]> own) = Some k.
Proof. destruct c; cbn [_logger]; by rewrite lookup_insert_eq. Qed.

Lemma _logger_insert_other (c a : Class) (k : Kino) (own : gmap Class Kino) :
  a ∉ lineage c → _logger c (<[ a := k ]> own) = _logger c own.
Proof.
  induction c as [|i n super IH]; cbn [_logger lineage]; intros H.
  - rewrite lookup_insert_ne; [reflexivity |]. intros ->. apply H, lineage_self.
  - apply not_elem_of_cons in H as [Hne H].
    rewrite lookup_insert_ne by done. by rewrite IH.
Qed.

Lemma _logger_None (c : Class) (own : gmap Class Kino) :
  _logger c own = None ↔ ∀ a, a ∈ lineage c → own !! a = None.
Proof.
  induction c as [|i n super IH]; cbn [_logger lineage].
  - destruct (own !! Base) eqn:E; split; try done.
    + intros H. specialize (H Base (list_elem_of_here _ _)). congruence.
    + intros _ a Ha. by apply list_elem_of_singleton in Ha as ->.
  - destruct (own !! Extends i n super) eqn:E.
    + split; [done |]. intros H.
      specialize (H _ (list_elem_of_here _ _)). congruence.
    + rewrite IH. split.
      * intros H a Ha. apply elem_of_cons in Ha as [-> | Ha]; [done | by apply H].
      * intros H a Ha. apply H. by apply list_elem_of_further.
Qed.

Lemma _logger_Some (c : Class) (own : gmap Class Kino) (k : Kino) :
  _logger c own = Some k → ∃ a, a ∈ lineage c ∧ own !! a = Some k.
Proof.
  induction c as [|i n super IH]; cbn [_logger lineage].
  - destruct (own !! Base) eqn:E; [| done].
    intros [= <-]. exists Base. split; [apply list_elem_of_here | done].
  - destruct (own !! Extends i n super) eqn:E.
    + intros [= <-]. eexists. split; [apply list_elem_of_here | done].
    + intros H. destruct (IH H) as (a & Ha & Hk).
      exists a. split; [by apply list_elem_of_further | done].
Qed.

(** The two getters have the same body. *)
Lemma logger_eq (c : Class) (own : gmap Class Kino) :
  logger c own = logger_static c own.
Proof. reflexivity. Qed.

Lemma logger_static_Some (c : Class) (own : gmap Class Kino) (k : Kino) :
  _logger c own = Some k → logger_static c own = (own, Some k).
Proof. intros H. unfold logger_static. by rewrite H, H. Qed.

Lemma logger_static_None (c : Class) (own : gmap Class Kino) :
  _logger c own = None →
  logger_static c own
  = (<[ c := new_Kino (name c) ]> own, Some (new_Kino (name c))).
Proof. intros H. unfold logger_static. by rewrite H, _logger_insert. Qed.

(** ** Properties of the getters *)

(** X1: a [logger] getter always yields a logger, and reading it again
    on the same class, through the static or the instance getter, yields
    the same logger and leaves every [_logger] property as it is. *)
Theorem logger_memoized (c : Class) (own : gmap Class Kino) :
  ∃ k,
    snd (logger_static c own) = Some k
    ∧ logger_static c (fst (logger_static c own))
      = (fst (logger_static c own), Some k)
    ∧ logger c (fst (logger_static c own))
      = (fst (logger_static c own), Some k).
Proof.
  destruct (_logger c own) as [k|] eqn:E.
  - exists k. rewrite (logger_static_Some c own k E). cbn [fst snd].
    change (logger c own) with (logger_static c own).
    by rewrite (logger_static_Some c own k E).
  - exists (new_Kino (name c)).
    rewrite (logger_static_None c own E). cbn [fst snd].
    change (logger c (<[c:=new_Kino (name c)]> own))
      with (logger_static c (<[c:=new_Kino (name c)]> own)).
    by rewrite (logger_static_Some _ _ _ (_logger_insert c _ own)).
Qed.

(** X2: read on a class none of whose superclasses (nor itself) has a
    [_logger] yet, the getter builds a logger labelled with the name of
    that class and stores it on that class only. *)
Theorem logger_named_after_class (c : Class) (own : gmap Class Kino) :
  (∀ a, a ∈ lineage c → own !! a = None) →
  logger_static c own
  = (<[ c := new_Kino (name c) ]> own, Some (new_Kino (name c))).
Proof. intros H. apply logger_static_None. by apply _logger_None. Qed.

(** X3: a class that reads its [logger] after its superclass did gets
    the logger of the superclass, label included, and no logger of its
    own is stored. *)
Theorem subclass_shares_super_logger (i : positive) (n : string)
    (super : Class) (own : gmap Class Kino) :
  own !! Extends i n super = None →
  logger_static (Extends i n super) (fst (logger_static super own))
  = logger_static super own.
Proof.
  intros Hsub.
  assert (super ≠ Extends i n super) as Hne.
  { intros Heq. apply (not_in_super_lineage i n super).
    rewrite <- Heq. apply lineage_self. }
  destruct (_logger super own) as [k|] eqn:E.
  - rewrite (logger_static_Some super own k E). cbn [fst].
    apply logger_static_Some. cbn [_logger]. by rewrite Hsub.
  - rewrite (logger_static_None super own E). cbn [fst].
    apply logger_static_Some. cbn [_logger].
    rewrite lookup_insert_ne, Hsub by exact Hne. apply _logger_insert.
Qed.

(** X4: when the subclass reads its [logger] first, it gets a logger
    labelled with its own name, its superclass then still builds one
    labelled with the name of the superclass, and the subclass keeps its
    own afterwards. *)
Theorem subclass_first_keeps_own (i : positive) (n : string)
    (super : Class) (own : gmap Class Kino) :
  (∀ a, a ∈ lineage (Extends i n super) → own !! a = None) →
  snd (logger_static (Extends i n super) own) = Some (new_Kino n)
  ∧ snd (logger_static super (fst (logger_static (Extends i n super) own)))
    = Some (new_Kino (name super))
  ∧ snd (logger_static (Extends i n super)
           (fst (logger_static super
                   (fst (logger_static (Extends i n super) own)))))
    = Some (new_Kino n).
Proof.
  intros Hfresh.
  assert (super ≠ Extends i n super) as Hne.
  { intros Heq. apply (not_in_super_lineage i n super).
    rewrite <- Heq. apply lineage_self. }
  rewrite (logger_named_after_class _ own Hfresh). cbn [fst snd name].
  split; [reflexivity |].
  assert (_logger super (<[Extends i n super := new_Kino n]> own) = None) as E.
  { rewrite _logger_insert_other by apply not_in_super_lineage.
    apply _logger_None. intros a Ha. apply Hfresh. by apply list_elem_of_further. }
  rewrite (logger_static_None _ _ E). cbn [fst snd].
  split; [reflexivity |].
  erewrite logger_static_Some; [reflexivity |].
  cbn [_logger]. rewrite lookup_insert_ne by exact Hne.
  by rewrite lookup_insert_eq.
Qed.

(** Every stored logger bears the name of the class it is stored on. *)
Definition named_after_owner (own : gmap Class Kino) : Prop :=
  ∀ c k, own !! c = Some k → k = new_Kino (name c).

Lemma access_named (a : Access) (own : gmap Class Kino) :
  named_after_owner own → named_after_owner (access a own).
Proof.
  intros Hinv.
  assert (∀ c, named_after_owner (fst (logger_static c own))) as H.
  { intros c. unfold logger_static. cbn [fst].
    destruct (_logger c own); [exact Hinv |].
    intros c' k. destruct (decide (c = c')) as [<- | Hne].
    - rewrite lookup_insert_eq. by intros [= <-].
    - rewrite lookup_insert_ne by exact Hne. apply Hinv. }
  destruct a; apply H.
Qed.

Lemma accesses_named (l : list Access) : named_after_owner (accesses l).
Proof.
  unfold accesses.
  assert (∀ own, named_after_owner own →
            named_after_owner (foldl (λ own a, access a own) own l)) as H.
  { induction l as [|a l IH]; intros own Hown; [exact Hown |].
    cbn. apply IH. by apply access_named. }
  apply H. intros c k. by rewrite lookup_empty.
Qed.

(** X5: in a program where the [_logger] properties are only written by
    the getters, the logger a class gets is always labelled with the
    name of that class or of one of its superclasses. *)
Theorem logger_label_in_lineage (l : list Access) (c : Class) :
  ∃ a, a ∈ lineage c
       ∧ snd (logger_static c (accesses l)) = Some (new_Kino (name a))
       ∧ snd (logger c (accesses l)) = Some (new_Kino (name a)).
Proof.
  change (logger c (accesses l)) with (logger_static c (accesses l)).
  destruct (_logger c (accesses l)) as [k|] eqn:E.
  - destruct (_logger_Some _ _ _ E) as (a & Ha & Hk).
    exists a. rewrite (logger_static_Some _ _ _ E). cbn [snd].
    by rewrite (accesses_named l a k Hk).
  - exists c. rewrite (logger_static_None _ _ E).
    split; [apply lineage_self | done].
Qed.

(** *** Concrete classes *)

(** [class Repo extends KinoLoggedClass] and
    [class UserRepo extends Repo]. *)
Definition Repo : Class := Extends 1 "Repo" Base.
Definition UserRepo : Class := Extends 2 "UserRepo" Repo.

Lemma logger_named_after_class_witness :
  logger_static UserRepo ∅
  = (<[ UserRepo := new_Kino "UserRepo" ]> ∅, Some (new_Kino "UserRepo")).
Proof.
  apply (logger_named_after_class UserRepo ∅).
  intros a _. apply lookup_empty.
Defined.

Lemma subclass_shares_super_logger_witness :
  logger_static UserRepo (fst (logger_static Repo ∅)) = logger_static Repo ∅.
Proof.
  apply (subclass_shares_super_logger 2 "UserRepo" Repo ∅).
  apply lookup_empty.
Defined.

Lemma subclass_first_keeps_own_witness :
  snd (logger_static UserRepo ∅) = Some (new_Kino "UserRepo")
  ∧ snd (logger_static Repo (fst (logger_static UserRepo ∅)))
    = Some (new_Kino "Repo")
  ∧ snd (logger_static UserRepo
           (fst (logger_static Repo (fst (logger_static UserRepo ∅)))))
    = Some (new_Kino "UserRepo").
Proof.
  apply (subclass_first_keeps_own 2 "UserRepo" Repo ∅).
  intros a _. apply lookup_empty.
Defined.

(** Read after [Repo], [UserRepo] logs under the label [Repo]. *)
Example run_shared_label :
  snd (logger_static UserRepo (accesses [read_instance Repo]))
  = Some (new_Kino "Repo").
Proof. vm_compute. reflexivity. Qed.

End KinoLoggedClass.

(** * More about Kino.ts *)

(** ** What a call can change *)

Lemma add_step (ls1 ls2 : list Line)
    (cs1 cs2 : list (jsval * SentryCaptureContext)) (w : World) :
  add_captured cs2 (add_lines ls2 (add_captured cs1 (add_lines ls1 w)))
  = add_captured (cs1 ++ cs2) (add_lines (ls1 ++ ls2) w).
Proof. unfold add_captured, add_lines. cbn. by rewrite !app_assoc. Qed.

Lemma add_nothing (w : World) : add_captured [] (add_lines [] w) = w.
Proof. by rewrite add_lines_nil, add_captured_nil. Qed.

(** [w'] is [w] with lines appended to the console and captures handed
    to Sentry, and nothing else changed; without a Sentry client there
    are no captures, and before [init] there are no lines either. *)
Definition appended (w w' : World) : Prop :=
  ∃ ls cs,
    w' = add_captured cs (add_lines ls w)
    ∧ (Sentry_client w = None → cs = [])
    ∧ (Kino_instance w = None → ls = [] ∧ cs = []).

Lemma appended_refl (w : World) : appended w w.
Proof. exists [], []. by rewrite add_nothing. Qed.

Lemma appended_trans (w1 w2 w3 : World) :
  appended w1 w2 → appended w2 w3 → appended w1 w3.
Proof.
  intros (ls1 & cs1 & -> & Hc1 & Hi1) (ls2 & cs2 & -> & Hc2 & Hi2).
  cbn in Hc2, Hi2. exists (ls1 ++ ls2), (cs1 ++ cs2).
  split; [apply add_step |]. split.
  - intros H. by rewrite (Hc1 H), (Hc2 H).
  - intros H. destruct (Hi1 H) as [-> ->]. by destruct (Hi2 H) as [-> ->].
Qed.

Section Calls.

Variable toLocaleString : Z → string → option string.
Variable chalk : Chalk → string → string.
Variable util_inspect : jsval → nat → bool → string.
Variable Sentry_throws : gmap string jsval → option Exception.

Local Abbreviation init := (init Sentry_throws).
Local Abbreviation output := (output toLocaleString chalk util_inspect).
Local Abbreviation log := (log toLocaleString chalk util_inspect).
Local Abbreviation info := (info toLocaleString chalk util_inspect).
Local Abbreviation debug := (debug toLocaleString chalk util_inspect).
Local Abbreviation success := (success toLocaleString chalk util_inspect).
Local Abbreviation warn := (warn toLocaleString chalk util_inspect).
Local Abbreviation error := (error toLocaleString chalk util_inspect).
Local Abbreviation trace := (trace toLocaleString chalk util_inspect).
Local Abbreviation log_static := (log_static toLocaleString chalk util_inspect).
Local Abbreviation info_static := (info_static toLocaleString chalk util_inspect).
Local Abbreviation debug_static := (debug_static toLocaleString chalk util_inspect).
Local Abbreviation success_static := (success_static toLocaleString chalk util_inspect).
Local Abbreviation warn_static := (warn_static toLocaleString chalk util_inspect).
Local Abbreviation error_static := (error_static toLocaleString chalk util_inspect).
Local Abbreviation trace_static := (trace_static toLocaleString chalk util_inspect).
Local Abbreviation call_listener := (call_listener toLocaleString chalk util_inspect).
Local Abbreviation line_of := (line_of chalk util_inspect).
Local Abbreviation step :=
  (exec toLocaleString chalk util_inspect Sentry_throws).
Local Abbreviation steps :=
  (run toLocaleString chalk util_inspect Sentry_throws).

Lemma level_appended (this : Kino) (type : LevelKey) (entries : list jsval)
    (w : World) :
  appended w (after (check_initialized;; output this type entries) w).
Proof.
  unfold after. destruct (Kino_instance w) as [k|] eqn:E.
  - assert (Kino_instance w ≠ None) as H by congruence.
    destruct (toLocaleString (clock w) (Kino_locale w)) as [date|] eqn:Hd.
    + rewrite (level_eq toLocaleString chalk util_inspect
                 this type entries w date H Hd).
      exists (line_of date this type <$> entries), [].
      split; [by rewrite add_captured_nil |]. split; [done | congruence].
    + rewrite (level_RangeError toLocaleString chalk util_inspect
                 this type entries w H Hd).
      apply appended_refl.
  - rewrite (guarded_None _ w E). apply appended_refl.
Qed.

Lemma error_appended (this : Kino) (err : jsval)
    (context : option SentryCaptureContext) (w : World) :
  appended w (after (error this err context) w).
Proof.
  unfold after. destruct (Kino_instance w) as [k|] eqn:E.
  - assert (Kino_instance w ≠ None) as H by congruence.
    destruct (toLocaleString (clock w) (Kino_locale w)) as [date|] eqn:Hd.
    + rewrite (error_eq toLocaleString chalk util_inspect
                 this err context w date H Hd).
      eexists _, _. split; [reflexivity |]. split; [| congruence].
      by intros ->.
    + rewrite (error_RangeError toLocaleString chalk util_inspect
                 this err context w H Hd).
      apply appended_refl.
  - unfold Kino.error. rewrite (guarded_None _ w E). apply appended_refl.
Qed.

Lemma for_of_appended {A : Type} (xs : list A) (body : A → M unit) (w : World) :
  (∀ x w, appended w (after (body x) w)) →
  appended w (after (for_of xs body) w).
Proof.
  intros Hb. revert w. induction xs as [|x xs IH]; intros w.
  - apply appended_refl.
  - cbn [for_of]. specialize (Hb x w). unfold after, mbind, M_bind in *.
    destruct (body x w) as [w1 [[]|e]]; cbn [fst] in *.
    + eapply appended_trans; [exact Hb | apply IH].
    + exact Hb.
Qed.

Lemma trace_appended (this : Kino) (uid : string)
    (context : option SentryCaptureContext) (errs : list jsval) (w : World) :
  appended w (after (f ← trace this uid context; for_of errs f) w).
Proof.
  unfold after. destruct (Kino_instance w) as [k|] eqn:E.
  - rewrite (bind_Return _ _ _ _ _
               (trace_eq toLocaleString chalk util_inspect this uid context w
                  ltac:(congruence))).
    apply (for_of_appended errs). intros x w1. apply error_appended.
  - unfold Kino.trace.
    rewrite (bind_Throw _ _ _ _ _ (guarded_None _ w E)). apply appended_refl.
Qed.

Lemma on_instance_appended {A : Type} (this : Receiver) (name : string)
    (method : Kino → M A) (w : World) :
  (∀ k, appended w (after (method k) w)) →
  appended w (after (on_instance this name method) w).
Proof.
  intros H. unfold after. destruct (read_instance this w) as [k|] eqn:E.
  - rewrite (on_instance_Some this name method w k E). apply H.
  - unfold on_instance, this_instance, mbind, M_bind. rewrite E.
    apply appended_refl.
Qed.

(** A static method does on [w] what its body does on [this.instance],
    and nothing when [Kino.instance] is not set. *)
Lemma static_appended {A : Type} (this : Receiver) (name : string)
    (method : Kino → M A) (w : World) :
  (∀ k, appended w (after (method k) w)) →
  appended w (after (check_initialized;; on_instance this name method) w).
Proof.
  intros H. unfold after. destruct (Kino_instance w) as [k|] eqn:E.
  - rewrite guarded_Some by congruence. by apply on_instance_appended.
  - rewrite (guarded_None _ w E). apply appended_refl.
Qed.

Lemma trace_static_appended (this : Receiver) (uid : string)
    (errs : list jsval) (w : World) :
  appended w (after (f ← trace_static this uid; for_of errs f) w).
Proof.
  unfold after. destruct (Kino_instance w) as [k0|] eqn:E.
  - assert (Kino_instance w ≠ None) as H by congruence.
    destruct (read_instance_Some this w H) as [k Hk].
    rewrite (bind_Return _ _ _ _ _
               (eq_trans (trace_static_eq toLocaleString chalk util_inspect
                            this uid w k H Hk)
                         (trace_eq toLocaleString chalk util_inspect
                            k uid None w H))).
    apply (for_of_appended errs). intros x w1. apply error_appended.
  - unfold Kino.trace_static.
    rewrite (bind_Throw _ _ _ _ _ (guarded_None _ w E)). apply appended_refl.
Qed.

(** Every call but [init] only appends. *)
Lemma exec_appended (c : Call) (w : World) :
  (∀ this config, c ≠ call_init this config) → appended w (step c w).
Proof.
  intros Hc. destruct c; cbn [exec].
  - by destruct (Hc this config).
  - apply level_appended.
  - apply level_appended.
  - apply level_appended.
  - apply level_appended.
  - apply level_appended.
  - apply error_appended.
  - apply trace_appended.
  - apply on_instance_appended. intros k. apply level_appended.
  - apply static_appended. intros k. apply level_appended.
  - apply static_appended. intros k. apply level_appended.
  - apply static_appended. intros k. apply level_appended.
  - apply static_appended. intros k. apply level_appended.
  - apply static_appended. intros k. apply error_appended.
  - apply trace_static_appended.
  - destruct l.
    + apply (static_appended Kino_itself "error" (λ k, error k x None)).
      intros k. apply error_appended.
    + change (after (call_listener uncaughtException_listener x) w)
        with (after (error_static Kino_itself x None) w).
      apply (static_appended Kino_itself "error" (λ k, error k x None)).
      intros k. apply error_appended.
Qed.

Lemma steps_appended (calls : list Call) (w : World) :
  (∀ this config, call_init this config ∉ calls) →
  appended w (steps calls w).
Proof.
  revert w. induction calls as [|c calls IH]; intros w Hno.
  - apply appended_refl.
  - cbn. apply (appended_trans _ (step c w)).
    + apply exec_appended. intros this config Heq. subst c.
      apply (Hno this config), list_elem_of_here.
    + apply IH. intros this config Hin. apply (Hno this config).
      by apply list_elem_of_further.
Qed.

(** X6: before [init], no sequence of calls of the logging methods,
    static or not, nor of the listeners, leaves any trace: nothing is
    written, nothing is captured, nothing is configured. *)
Theorem inert_before_init (calls : list Call) (w : World) :
  Kino_instance w = None →
  (∀ this config, call_init this config ∉ calls) →
  steps calls w = w.
Proof.
  intros Hw Hno.
  destruct (steps_appended calls w Hno) as (ls & cs & -> & _ & Hi).
  destruct (Hi Hw) as [-> ->]. apply add_nothing.
Qed.

(** X7: the logging methods configure nothing: through any sequence of
    calls other than [init], the default instance, the locale, the
    process listeners and the Sentry client stay as they were, and so do
    the static properties of the classes that extend [Kino]. *)
Theorem only_init_configures (calls : list Call) (w : World) :
  (∀ this config, call_init this config ∉ calls) →
  Kino_instance (steps calls w) = Kino_instance w
  ∧ Kino_locale (steps calls w) = Kino_locale w
  ∧ process_listeners (steps calls w) = process_listeners w
  ∧ Sentry_client (steps calls w) = Sentry_client w
  ∧ Sub_instance (steps calls w) = Sub_instance w
  ∧ Sub_locale (steps calls w) = Sub_locale w
  ∧ Sentry_inits (steps calls w) = Sentry_inits w.
Proof.
  intros Hno.
  by destruct (steps_appended calls w Hno) as (ls & cs & -> & _ & _).
Qed.

Lemma exec_grows (c : Call) (w : World) :
  console w `prefix_of` console (step c w)
  ∧ Sentry_captured w `prefix_of` Sentry_captured (step c w)
  ∧ process_listeners w `prefix_of` process_listeners (step c w).
Proof.
  destruct (call_init_or_not c) as [(this & config & ->) | Hc].
  - cbn [exec]. unfold after. destruct (Kino_instance w) as [k|] eqn:E.
    + by rewrite init_Some by congruence.
    + rewrite (init_None Sentry_throws this config w E). cbn.
      split; [done |]. split; [done |]. by eexists.
  - destruct (exec_appended c w Hc) as (ls & cs & -> & _ & _). cbn.
    split; [by eexists |]. split; [by eexists | done].
Qed.

(** X8: nothing written is ever taken back: through any sequence of
    calls, [init] included, the console, the captures handed to Sentry
    and the process listeners only grow at their end. *)
Theorem calls_only_append (calls : list Call) (w : World) :
  console w `prefix_of` console (steps calls w)
  ∧ Sentry_captured w `prefix_of` Sentry_captured (steps calls w)
  ∧ process_listeners w `prefix_of` process_listeners (steps calls w).
Proof.
  revert w. induction calls as [|c calls IH]; intros w; [done |].
  cbn. destruct (exec_grows c w) as (H1 & H2 & H3).
  destruct (IH (step c w)) as (H1' & H2' & H3').
  split; [by etrans |]. split; by etrans.
Qed.

(** What holds of the listeners in every state reached by calling
    [init] on [Kino] only. *)
Definition listeners_ok (w : World) : Prop :=
  (Kino_instance w = None → process_listeners w = [])
  ∧ (process_listeners w = [] ∨ process_listeners w = both_listeners).

Lemma exec_listeners_ok (c : Call) (w : World) :
  (∀ this config, c = call_init this config → this = Kino_itself) →
  listeners_ok w → listeners_ok (step c w).
Proof.
  intros Hk [Hnone Hlist].
  destruct (call_init_or_not c) as [(this & config & ->) | Hc].
  - rewrite (Hk this config eq_refl).
    cbn [exec]. unfold after. destruct (Kino_instance w) as [k|] eqn:E.
    + rewrite init_Some by congruence. split; [cbn; congruence | exact Hlist].
    + rewrite (init_None Sentry_throws Kino_itself config w E).
      split; [discriminate |].
      cbn. rewrite (Hnone eq_refl).
      destruct (init_throws Sentry_throws config); [by left |].
      destruct (default false (autoCaptureUnhandledRejections config));
        [by right | by left].
  - destruct (exec_appended c w Hc) as (ls & cs & -> & _ & _).
    split; [exact Hnone | exact Hlist].
Qed.

(** X9: in a process that starts without listeners and where [init] is
    only ever called on the class [Kino] itself, whatever else is called
    and however often [init] is retried, the listeners for unhandled
    rejections and uncaught exceptions are registered at most once:
    there are none, or exactly the two of the one [init] that
    returned. *)
Theorem listeners_registered_once (calls : list Call) (t : Z) :
  (∀ this config, call_init this config ∈ calls → this = Kino_itself) →
  process_listeners (steps calls (boot t)) = []
  ∨ process_listeners (steps calls (boot t)) = both_listeners.
Proof.
  assert (∀ w,
            (∀ this config, call_init this config ∈ calls → this = Kino_itself) →
            listeners_ok w → listeners_ok (steps calls w)) as H.
  { induction calls as [|c calls IH]; intros w Hk Hw; [exact Hw |].
    cbn. apply IH.
    - intros this config Hin. by apply (Hk this config), list_elem_of_further.
    - apply exec_listeners_ok; [| exact Hw].
      intros this config ->. apply (Hk this config), list_elem_of_here. }
  intros Hk. apply (H (boot t) Hk). split; [reflexivity | by left].
Qed.

Lemma exec_no_capture (c : Call) (w : World) :
  (∀ this config, c = call_init this config → sentry config = None) →
  Sentry_client w = None →
  Sentry_client (step c w) = None
  ∧ Sentry_captured (step c w) = Sentry_captured w.
Proof.
  intros Hs Hw. destruct (call_init_or_not c) as [(this & config & ->) | Hc].
  - cbn [exec]. unfold after. destruct (Kino_instance w) as [k|] eqn:E.
    + by rewrite init_Some by congruence.
    + rewrite (init_None Sentry_throws this config w E). cbn.
      by rewrite (Hs this config eq_refl).
  - destruct (exec_appended c w Hc) as (ls & cs & -> & Hcs & _).
    rewrite (Hcs Hw). cbn. split; [exact Hw | apply app_nil_r].
Qed.

(** X10: in a process that starts without a Sentry client, as long as
    no [init] is given a Sentry configuration, no call ever hands
    anything to [Sentry.captureException], [error] included. *)
Theorem no_sentry_no_capture (calls : list Call) (t : Z) :
  (∀ this config, call_init this config ∈ calls → sentry config = None) →
  Sentry_client (steps calls (boot t)) = None
  ∧ Sentry_captured (steps calls (boot t)) = [].
Proof.
  assert (∀ w,
            (∀ this config, call_init this config ∈ calls →
                            sentry config = None) →
            Sentry_client w = None →
            Sentry_client (steps calls w) = None
            ∧ Sentry_captured (steps calls w) = Sentry_captured w) as H.
  { induction calls as [|c calls IH]; intros w Hs Hw; [done |].
    cbn. destruct (exec_no_capture c w) as [Hc Hcap]; [| exact Hw |].
    - intros this config ->. apply (Hs this config), list_elem_of_here.
    - rewrite <- Hcap. apply IH; [| exact Hc].
      intros this config Hin. by apply (Hs this config), list_elem_of_further. }
  intros Hs. by apply H.
Qed.

(** X11: on an initialised logger whose locale the date formatter
    accepts, a listener of [init] called with an event's value returns
    normally, writes exactly one [console.error] line under the label of
    the default instance, and, when Sentry has a client, captures the
    value with the single tag [module]. *)
Theorem event_logged_once (l : Listener) (x : jsval) (w : World) (k : Kino)
    (date : string) :
  Kino_instance w = Some k →
  toLocaleString (clock w) (Kino_locale w) = Some date →
  outcome (call_listener l x) w = Return tt
  ∧ console (after (call_listener l x) w)
    = console w ++
        [{| line_writer := console_error;
            line_prefix :=
              chalk red ("[" +:+ date +:+ " - " +:+ module k
                         +:+ " - " +:+ "ERROR" +:+ "]");
            line_text :=
              match x with JStr s => s | _ => util_inspect x 3 true end |}]
  ∧ Sentry_captured (after (call_listener l x) w)
    = Sentry_captured w ++
        match Sentry_client w with
        | Some _ =>
            [(x, {| tags := Some {[ "module" := module k ]};
                    extras := None; user := None |})]
        | None => []
        end.
Proof.
  intros E Hd. assert (Kino_instance w ≠ None) as H by congruence.
  assert (error_static Kino_itself x None w
          = (add_captured
               match Sentry_client w with
               | Some _ => [(x, forwarded (module k) None)]
               | None => []
               end
               (add_lines [line_of date k Kerror x] w), Return tt)) as Heq.
  { rewrite (error_static_eq toLocaleString chalk util_inspect
               Kino_itself x None w k H E).
    by apply error_eq. }
  destruct (call_listener_error toLocaleString chalk util_inspect l x w)
    as [Hafter Hout].
  rewrite Hafter, Hout; unfold outcome, after; rewrite Heq; [| reflexivity].
  cbn. unfold forwarded. cbn. rewrite insert_empty.
  by destruct (Sentry_client w).
Qed.

(** X12: the console method of each level: [log] and [success] write
    with [console.log], [info] with [console.info], [debug] with
    [console.debug] and [warn] with [console.warn]. *)
Theorem level_streams (this : Kino) (entries : list jsval) (w : World) :
  Kino_instance w ≠ None →
  ∀ method writer,
    In (method, writer)
       [(log, console_log); (info, console_info); (debug, console_debug);
        (success, console_log); (warn, console_warn)] →
    ∃ lines,
      console (after (method this entries) w) = console w ++ lines
      ∧ Forall (λ l, line_writer l = writer) lines.
Proof.
  intros H method writer Hin.
  assert (∀ type, ∃ lines,
            console (after (check_initialized;; output this type entries) w)
            = console w ++ lines
            ∧ Forall (λ l, line_writer l
                           = line_writer (line_of "" this type JNull))
                lines) as Hlevel.
  { intros type. unfold after.
    destruct (toLocaleString (clock w) (Kino_locale w)) as [date|] eqn:Hd.
    - exists (line_of date this type <$> entries).
      rewrite (level_eq toLocaleString chalk util_inspect
                 this type entries w date H Hd).
      split; [reflexivity |]. apply Forall_fmap, Forall_forall. by intros e _.
    - exists [].
      rewrite (level_RangeError toLocaleString chalk util_inspect
                 this type entries w H Hd).
      split; [by rewrite app_nil_r | constructor]. }
  destruct Hin as [[= <- <-] | [[= <- <-] | [[= <- <-] | [[= <- <-] | [[= <- <-] | []]]]]].
  - apply (Hlevel Klog).
  - apply (Hlevel Kinfo).
  - apply (Hlevel Kdebug).
  - apply (Hlevel Ksuccess).
  - apply (Hlevel Kwarn).
Qed.

Lemma read_instance_inherited (this : Receiver) (w : World) :
  Sub_instance w = ∅ → read_instance this w = Kino_instance w.
Proof.
  intros Hs. induction this as [|i n super IH]; cbn [read_instance];
    [reflexivity |].
  by rewrite Hs, lookup_empty.
Qed.

(** X13: in a fresh process, when [Kino.init(config)] returns and the
    date formatter accepts the locale in force, a static level method
    called next, on [Kino] or on a class that extends it, writes one
    line per value under the label [defaultIntanceTitle], or [GLOBAL]
    when none is given, with the date in the locale of the
    configuration, or in [en-US] when none or an empty one is given. *)
Theorem static_after_init (config : KinoInitOptions) (t : Z)
    (entries : list jsval) (that : Receiver) (date : string) :
  let title := default "GLOBAL" (defaultIntanceTitle config) in
  let loc :=
    match locale config with
    | Some l => if String.eqb l "" then "en-US" else l
    | None => "en-US"
    end in
  outcome (init Kino_itself config) (boot t) = Return tt →
  toLocaleString t loc = Some date →
  ∀ method type,
    In (method, type)
       [(log_static that, Klog); (info_static that, Kinfo);
        (debug_static that, Kdebug); (success_static that, Ksuccess);
        (warn_static that, Kwarn)] →
    outcome (init Kino_itself config;; method entries) (boot t) = Return tt
    ∧ length (console (after (init Kino_itself config;; method entries)
                         (boot t)))
      = length entries
    ∧ Forall (λ l, line_prefix l
                   = chalk (COLORS type)
                       ("[" +:+ date +:+ " - " +:+ title
                        +:+ " - " +:+ LEVELS type +:+ "]"))
        (console (after (init Kino_itself config;; method entries) (boot t))).
Proof.
  intros title loc Hinit Hdate method type Hin.
  pose (w := init_world Sentry_throws Kino_itself config (boot t)).
  assert (init Kino_itself config (boot t) = (w, Return tt)) as Hw.
  { unfold outcome in Hinit.
    rewrite (init_None Sentry_throws Kino_itself config (boot t) eq_refl) in *.
    cbn [snd] in Hinit. by rewrite Hinit. }
  assert (Kino_instance w ≠ None) as H by discriminate.
  assert (read_instance that w = Some (new_Kino title)) as E.
  { by rewrite read_instance_inherited. }
  assert (toLocaleString (clock w) (Kino_locale w) = Some date) as Hd.
  { rewrite <- Hdate. unfold w, loc. cbn.
    destruct (locale config) as [l|]; [| reflexivity].
    by destruct (String.eqb l ""). }
  assert (∀ type',
            (check_initialized;; output (new_Kino title) type' entries) w
            = (add_lines (line_of date (new_Kino title) type' <$> entries) w,
               Return tt)) as Hlevel.
  { intros type'. by apply level_eq. }
  assert (∀ m : list jsval → M unit,
            m entries w
            = (add_lines (line_of date (new_Kino title) type <$> entries) w,
               Return tt) →
            outcome (init Kino_itself config;; m entries) (boot t) = Return tt
            ∧ length (console (after (init Kino_itself config;; m entries)
                                 (boot t)))
              = length entries
            ∧ Forall (λ l, line_prefix l
                           = chalk (COLORS type)
                               ("[" +:+ date +:+ " - " +:+ title
                                +:+ " - " +:+ LEVELS type +:+ "]"))
                (console (after (init Kino_itself config;; m entries)
                            (boot t)))) as Hrun.
  { intros m Hm. unfold outcome, after.
    rewrite (bind_Return _ _ _ _ _ Hw), Hm.
    cbn [fst snd add_lines console].
    split; [reflexivity |].
    replace (console w) with (@nil Line) by reflexivity. cbn [app].
    split; [apply length_fmap |].
    apply Forall_fmap, Forall_forall. by intros e _. }
  destruct (static_levels_eq toLocaleString chalk util_inspect
              that entries w _ H E)
    as (E1 & E2 & E3 & E4 & E5).
  destruct Hin as [[= <- <-] | [[= <- <-] | [[= <- <-] | [[= <- <-] | [[= <- <-] | []]]]]];
    apply Hrun.
  - rewrite E1. apply Hlevel.
  - rewrite E2. apply Hlevel.
  - rewrite E3. apply Hlevel.
  - rewrite E4. apply Hlevel.
  - rewrite E5. apply Hlevel.
Qed.

(** ** More about what [init] hands to Sentry *)

(** X14: whatever the configuration, the list [init] assembles starts
    with the eight baseline integrations, has at most thirteen entries
    and holds no integration twice, also when [packages] names a driver
    more than once. *)
Theorem integrations_no_duplicates (config : KinoInitOptions) :
  NoDup (integrations config)
  ∧ baseline `prefix_of` integrations config
  ∧ (length (integrations config) ≤ 13)%nat.
Proof.
  split; [| split].
  - integrations_cases config;
      apply (bool_decide_unpack _); vm_compute; exact I.
  - rewrite integrations_eq. by eexists.
  - integrations_cases config; cbn; lia.
Qed.

Lemma anr_assembled (config : KinoInitOptions) (b : bool) :
  anrIntegration b ∈ integrations config ↔ b = true ∧ ANR config = Some true.
Proof.
  rewrite integrations_eq.
  destruct (ANR config) as [[|]|], b,
    (default false (autoCaptureUnhandledRejections config)),
    (default false ((λ p, includes p "knex") <$> packages config)),
    (default false ((λ p, includes p "mysql2") <$> packages config));
    cbn [default from_option];
    (split;
     [ first [ intros _; by split
             | intros H; exfalso; revert H; decide_membership ]
     | first [ intros _; decide_membership | by intros [? ?] ] ]).
Qed.

(** X15: when [init] is given a Sentry configuration without an
    [integrations] option of its own, the application-not-responding
    integration reaches [Sentry.init] exactly when [ANR] is set, and
    then always with stack traces captured. *)
Theorem anr_on_request (this : Receiver) (config : KinoInitOptions)
    (config_sentry : gmap string jsval) (w : World) (b : bool) :
  Kino_instance w = None →
  sentry config = Some config_sentry →
  config_sentry !! "integrations" = None →
  passed_to_Sentry (anrIntegration b) (after (init this config) w)
  ↔ b = true ∧ ANR config = Some true.
Proof.
  intros Hw Hs Hi.
  rewrite (init_passed Sentry_throws this config config_sentry w _ Hw Hs Hi).
  apply anr_assembled.
Qed.

(** X16: when the Sentry configuration of the caller has an
    [integrations] option, that value is what [Sentry.init] receives:
    the assembled list is dropped, so [packages], [ANR] and
    [autoCaptureUnhandledRejections] select nothing. *)
Theorem caller_integrations_replace (this : Receiver)
    (config : KinoInitOptions) (config_sentry : gmap string jsval)
    (v : jsval) (w : World) :
  Kino_instance w = None →
  sentry config = Some config_sentry →
  config_sentry !! "integrations" = Some v →
  ∀ i, passed_to_Sentry i (after (init this config) w)
       ↔ ∃ l, v = JArr l ∧ JIntegration i ∈ l.
Proof.
  intros Hw Hs Hv i. unfold passed_to_Sentry.
  rewrite (init_inits Sentry_throws this config w Hw), Hs, last_snoc. split.
  - intros (options & l & [= <-] & Hl & Hin).
    rewrite (Sentry_options_override _ _ _ _ Hv) in Hl. injection Hl as ->.
    eauto.
  - intros (l & -> & Hin). eexists _, l. split; [reflexivity |].
    split; [by apply Sentry_options_override | exact Hin].
Qed.

End Calls.

(** The options of the facade, before those of the caller are laid over
    them. *)
Definition facade_options (integrations : list Integration) :
    gmap string jsval :=
  {[ "tracesSampleRate" := JNum (1 # 10);
     "defaultIntegrations" := JBool false;
     "integrations" := JArr (JIntegration <$> integrations);
     "maxBreadcrumbs" := JNum (5 # 1);
     "sendClientReports" := JBool false ]}.

(** X17: the options [Sentry.init] receives are the options of the
    caller laid over five fixed ones: every property of the caller wins
    with the value it has, [null] and [undefined] included, and the
    properties the caller lacks are 0.1 for [tracesSampleRate], [false]
    for [defaultIntegrations] and [sendClientReports], 5 for
    [maxBreadcrumbs] and the assembled list for [integrations]. *)
Theorem Sentry_options_layered (config_sentry : gmap string jsval)
    (l : list Integration) :
  Sentry_options config_sentry l = config_sentry ∪ facade_options l.
Proof.
  apply map_eq. intros k. unfold Sentry_options, spread.
  rewrite !(lookup_union config_sentry).
  destruct (config_sentry !! k) as [v|] eqn:E; [by rewrite !union_Some_l |].
  rewrite !(left_id_L None _). unfold facade_options, prop.
  destruct (decide (k = "sendClientReports")) as [-> | H1];
    [by rewrite !lookup_insert_eq |].
  destruct (decide (k = "maxBreadcrumbs")) as [-> | H2];
    [rewrite E; by simplify_map_eq |].
  destruct (decide (k = "integrations")) as [-> | H3]; [by simplify_map_eq |].
  destruct (decide (k = "defaultIntegrations")) as [-> | H4].
  { rewrite E. cbn. by simplify_map_eq. }
  destruct (decide (k = "tracesSampleRate")) as [-> | H5].
  { rewrite E. destruct (negb _); by simplify_map_eq. }
  destruct (negb _); simplify_map_eq;
    apply lookup_union_None_2; by simplify_map_eq.
Qed.

(** ** More concrete runs *)

(** [{ locale: 'fr-FR', ANR: true, sentry: { integrations: [] } }] *)
Definition french : KinoInitOptions :=
  {| sentry := Some {[ "integrations" := JArr [] ]};
     packages := Some ["knex"]; ANR := Some true;
     defaultIntanceTitle := None; locale := Some "fr-FR";
     autoCaptureUnhandledRejections := None |}.

(** [{ sentry: {}, ANR: true }] *)
Definition watched : KinoInitOptions :=
  {| sentry := Some ∅; packages := None; ANR := Some true;
     defaultIntanceTitle := None; locale := None;
     autoCaptureUnhandledRejections := None |}.

(** Calls made too early: none of them is [init]. *)
Definition early_calls : list Call :=
  [call_log_static Kino_itself [JStr "up"];
   call_info_static Sub [JStr "up"];
   call_error Db (JStr "boom") None;
   call_trace Db "u-1" None [JNull];
   call_event uncaughtException_listener (JError "Error" "late")].

Lemma early_calls_no_init (this : Receiver) (config : KinoInitOptions) :
  call_init this config ∉ early_calls.
Proof.
  unfold early_calls. intros H.
  repeat (apply elem_of_cons in H as [H | H]; [discriminate H |]).
  by apply elem_of_nil in H.
Qed.

Lemma inert_before_init_witness :
  run sample_date sample_chalk sample_inspect sample_Sentry early_calls (boot 0)
  = boot 0.
Proof.
  apply (inert_before_init sample_date sample_chalk sample_inspect
           sample_Sentry early_calls (boot 0)).
  - reflexivity.
  - exact early_calls_no_init.
Defined.

Lemma only_init_configures_witness :
  Kino_instance
    (run sample_date sample_chalk sample_inspect sample_Sentry early_calls
       reporting)
  = Kino_instance reporting
  ∧ Kino_locale
      (run sample_date sample_chalk sample_inspect sample_Sentry early_calls
         reporting)
    = Kino_locale reporting
  ∧ process_listeners
      (run sample_date sample_chalk sample_inspect sample_Sentry early_calls
         reporting)
    = process_listeners reporting
  ∧ Sentry_client
      (run sample_date sample_chalk sample_inspect sample_Sentry early_calls
         reporting)
    = Sentry_client reporting
  ∧ Sub_instance
      (run sample_date sample_chalk sample_inspect sample_Sentry early_calls
         reporting)
    = Sub_instance reporting
  ∧ Sub_locale
      (run sample_date sample_chalk sample_inspect sample_Sentry early_calls
         reporting)
    = Sub_locale reporting
  ∧ Sentry_inits
      (run sample_date sample_chalk sample_inspect sample_Sentry early_calls
         reporting)
    = Sentry_inits reporting.
Proof.
  apply (only_init_configures sample_date sample_chalk sample_inspect
           sample_Sentry early_calls reporting).
  exact early_calls_no_init.
Defined.

(** [Kino.init] with the flag, retried, with other calls in between. *)
Definition retried_calls : list Call :=
  call_init Kino_itself capturing :: early_calls
  ++ [call_init Kino_itself capturing].

Lemma listeners_registered_once_witness :
  process_listeners
    (run sample_date sample_chalk sample_inspect sample_Sentry retried_calls
       (boot 0)) = []
  ∨ process_listeners
      (run sample_date sample_chalk sample_inspect sample_Sentry retried_calls
         (boot 0)) = both_listeners.
Proof.
  apply (listeners_registered_once sample_date sample_chalk sample_inspect
           sample_Sentry retried_calls 0).
  intros this config H. unfold retried_calls, early_calls in H. cbn in H.
  repeat (apply elem_of_cons in H as [H | H];
          [first [discriminate H | by injection H as -> _] |]).
  by apply elem_of_nil in H.
Defined.

(** Retried on [Kino], the listeners are there once. *)
Example run_retried :
  process_listeners
    (run sample_date sample_chalk sample_inspect sample_Sentry retried_calls
       (boot 0)) = both_listeners.
Proof. vm_compute. reflexivity. Qed.

Lemma no_sentry_no_capture_witness :
  Sentry_client
    (run sample_date sample_chalk sample_inspect sample_Sentry
       (call_init Kino_itself only_knex :: early_calls) (boot 0)) = None
  ∧ Sentry_captured
      (run sample_date sample_chalk sample_inspect sample_Sentry
         (call_init Kino_itself only_knex :: early_calls) (boot 0)) = [].
Proof.
  apply (no_sentry_no_capture sample_date sample_chalk sample_inspect
           sample_Sentry (call_init Kino_itself only_knex :: early_calls) 0).
  intros this config H. apply elem_of_cons in H as [[= -> ->] | H]; [reflexivity |].
  by destruct (early_calls_no_init this config).
Defined.

Lemma event_logged_once_witness :
  outcome (call_listener sample_date sample_chalk sample_inspect
             uncaughtException_listener (JError "Error" "late")) reporting
  = Return tt
  ∧ console (after (call_listener sample_date sample_chalk sample_inspect
                      uncaughtException_listener (JError "Error" "late"))
               reporting)
    = console reporting ++
        [{| line_writer := console_error;
            line_prefix := "[01/02/2025, 03:04:05 (en-US) - App - ERROR]";
            line_text := "<object>" |}]
  ∧ Sentry_captured
      (after (call_listener sample_date sample_chalk sample_inspect
                uncaughtException_listener (JError "Error" "late")) reporting)
    = Sentry_captured reporting ++
        match Sentry_client reporting with
        | Some _ =>
            [(JError "Error" "late",
              {| tags := Some {[ "module" := "App" ]};
                 extras := None; user := None |})]
        | None => []
        end.
Proof.
  apply (event_logged_once sample_date sample_chalk sample_inspect
           uncaughtException_listener (JError "Error" "late") reporting
           (new_Kino "App") "01/02/2025, 03:04:05 (en-US)");
    reflexivity.
Defined.

Lemma level_streams_witness :
  ∃ lines,
    console (after (success sample_date sample_chalk sample_inspect
                      Db [JStr "done"]) ready)
    = console ready ++ lines
    ∧ Forall (λ l, line_writer l = console_log) lines.
Proof.
  apply (level_streams sample_date sample_chalk sample_inspect
           Db [JStr "done"] ready ltac:(discriminate)
           (success sample_date sample_chalk sample_inspect) console_log).
  do 3 right. left. reflexivity.
Defined.

Lemma static_after_init_witness :
  outcome (init sample_Sentry Kino_itself french;;
           info_static sample_date sample_chalk sample_inspect Sub [JStr "up"])
    (boot 0)
  = Return tt
  ∧ length (console
              (after (init sample_Sentry Kino_itself french;;
                      info_static sample_date sample_chalk sample_inspect Sub
                        [JStr "up"]) (boot 0)))
    = 1%nat
  ∧ Forall (λ l, line_prefix l
                 = "[01/02/2025, 03:04:05 (fr-FR) - GLOBAL - INFO]")
      (console
         (after (init sample_Sentry Kino_itself french;;
                 info_static sample_date sample_chalk sample_inspect Sub
                   [JStr "up"]) (boot 0))).
Proof.
  apply (static_after_init sample_date sample_chalk sample_inspect
           sample_Sentry french 0 [JStr "up"] Sub
           "01/02/2025, 03:04:05 (fr-FR)" eq_refl eq_refl
           (info_static sample_date sample_chalk sample_inspect Sub) Kinfo).
  right. left. reflexivity.
Defined.

Lemma anr_on_request_witness :
  passed_to_Sentry (anrIntegration true)
    (after (init sample_Sentry Kino_itself watched) (boot 0))
  ↔ true = true ∧ ANR watched = Some true.
Proof.
  apply (anr_on_request sample_Sentry Kino_itself watched ∅ (boot 0) true);
    reflexivity.
Defined.

Lemma caller_integrations_replace_witness :
  passed_to_Sentry knexIntegration
    (after (init sample_Sentry Kino_itself french) (boot 0))
  ↔ ∃ l, JArr [] = JArr l ∧ JIntegration knexIntegration ∈ l.
Proof.
  apply (caller_integrations_replace sample_Sentry Kino_itself french
           {[ "integrations" := JArr [] ]} (JArr []) (boot 0));
    reflexivity.
Defined.

(** With [integrations: []] in the Sentry configuration, nothing is
    installed, whatever [packages] and [ANR] ask for. *)
Example run_empty_integrations :
  Sentry_client (after (init sample_Sentry Kino_itself french) (boot 0))
  = Some {[ "tracesSampleRate" := JNum (1 # 10);
            "defaultIntegrations" := JBool false;
            "integrations" := JArr [];
            "maxBreadcrumbs" := JNum (5 # 1);
            "sendClientReports" := JBool false ]}.
Proof. vm_compute. reflexivity. Qed.
